(** * aws-reservations: reconciliation of running instances against reservations

    A shallow embedding of [aws-reservations.go].  The program lists the
    running EC2 and RDS instances of an account and its reserved instances,
    nets the two per group of interchangeable instances, and prints the groups
    that are not covered by a reservation and the reservations that are not
    covered by an instance. *)

From Stdlib Require Import ZArith Lia.
From stdpp Require Import base option list gmap strings.

Local Open Scope Z_scope.

(** ** Go's [int]

    [int] is taken as the 64-bit signed integer of the 64-bit Go targets.
    Arithmetic on it wraps around silently; an [int] is a [Z] and every
    operation of the program reduces its result with [wrap]. *)

Definition int_modulus : Z := 18446744073709551616.
Definition min_int : Z := -9223372036854775808.
Definition max_int : Z := 9223372036854775807.

Definition is_int (z : Z) : Prop := min_int <= z <= max_int.

Definition wrap (z : Z) : Z := (z - min_int) mod int_modulus + min_int.

(** [a + b], [a - b] and [-a] on [int]. *)
Definition int_add (a b : Z) : Z := wrap (a + b).
Definition int_sub (a b : Z) : Z := wrap (a - b).
Definition int_neg (a : Z) : Z := wrap (- a).

Global Arguments wrap : simpl never.

(** ** Values of the [aws] package: pointers standing for optional fields *)

Definition IntegerValue : Set := option Z.
Definition StringValue : Set := option string.
Definition BooleanValue : Set := option bool.

(** toInt unpacks aws.IntegerValue to integer; nil value corresponds to 0. *)
Definition toInt (i : IntegerValue) : Z :=
  match i with
  | None => 0
  | Some v => v
  end.

(** toStr unpacks aws.StringValue to string; nil value corresponds to empty
    string. *)
Definition toStr (s : StringValue) : string :=
  match s with
  | None => ""%string
  | Some v => v
  end.

(** toBool unpacks aws.BooleanValue to bool; nil value corresponds to false. *)
Definition toBool (b : BooleanValue) : bool :=
  match b with
  | None => false
  | Some v => v
  end.

(** [strings.Contains s substr]: [substr] occurs somewhere within [s]. *)
Fixpoint Contains (s substr : string) : bool :=
  if String.prefix substr s then true
  else match s with
       | EmptyString => false
       | String _ s' => Contains s' substr
       end.

(** ** The data model *)

(** [type state uint8] with the constants [UnknownState = iota] and [Active];
    the program stores no other value in a [state]. *)
Inductive state : Set := UnknownState | Active.

Global Instance state_eq_dec : EqDecision state.
Proof. solve_decision. Defined.

Definition state_String (s : state) : string :=
  match s with
  | Active => "active"
  | UnknownState => "unsupported state"
  end.

(** ec2Inst describes single ec2 instance *)
Record ec2Inst : Set := mk_ec2Inst {
  ec2_Class : string;  (* instance class (i.e. m3.large) *)
  VPC : bool           (* instance belongs to VPC *)
}.

(** rdsInst describes single RDS instance *)
Record rdsInst : Set := mk_rdsInst {
  rds_Class : string;  (* instance class (i.e. db.m3.large) *)
  Product : string;    (* type of database (mysql, postgres) *)
  MultiAZ : bool       (* instance spans multiple availability zones *)
}.

Global Instance ec2Inst_eq_dec : EqDecision ec2Inst.
Proof. solve_decision. Defined.

Global Instance rdsInst_eq_dec : EqDecision rdsInst.
Proof. solve_decision. Defined.

Global Instance ec2Inst_countable : Countable ec2Inst.
Proof.
  refine (inj_countable' (fun k => (ec2_Class k, VPC k))
                         (fun p => mk_ec2Inst p.1 p.2) _).
  by intros [].
Defined.

Global Instance rdsInst_countable : Countable rdsInst.
Proof.
  refine (inj_countable' (fun k => (rds_Class k, Product k, MultiAZ k))
                         (fun p => mk_rdsInst p.1.1 p.1.2 p.2) _).
  by intros [].
Defined.

(** [ec2InstInfo] and [rdsInstInfo] describe a group of instances having the
    same state.  The two Go structs have the same shape (the embedded key
    struct, [Count] and [State]); they are the two instances of one record. *)
Record InstInfo (K : Type) : Type := mk_InstInfo {
  inst : K;       (* the embedded ec2Inst / rdsInst *)
  Count : Z;      (* number of instances in group *)
  State : state   (* state of instances in group *)
}.
Arguments mk_InstInfo {K} _ _ _.
Arguments inst {K} _.
Arguments Count {K} _.
Arguments State {K} _.

Abbreviation ec2InstInfo := (InstInfo ec2Inst).
Abbreviation rdsInstInfo := (InstInfo rdsInst).

(** ** Raw records of the provider

    The structs of the packages [gen/ec2] and [gen/rds], restricted to the
    fields the program reads.  Every scalar field is a pointer there, an
    [option] here. *)

Module ec2.

Module InstanceState.
Record t : Set := mk { Name : StringValue }.
End InstanceState.

Module Instance.
Record t : Set := mk {
  InstanceType : StringValue;
  VPCID : StringValue;
  State : option InstanceState.t
}.
End Instance.

Module Reservation.
Record t : Set := mk { Instances : list Instance.t }.
End Reservation.

Module DescribeInstancesResult.
Record t : Set := mk { Reservations : list Reservation.t }.
End DescribeInstancesResult.

Module ReservedInstances.
Record t : Set := mk {
  InstanceType : StringValue;
  InstanceCount : IntegerValue;
  ProductDescription : StringValue;
  State : StringValue
}.
End ReservedInstances.

Module DescribeReservedInstancesResult.
Record t : Set := mk { ReservedInstances : list ReservedInstances.t }.
End DescribeReservedInstancesResult.

(** Modelled from the spec: the constants [InstanceStateName*] of the
    package [gen/ec2], which is not part of the sources at hand.  The spec
    lists the state names running, pending, stopping, shutting-down and
    stopped, and names "terminated" as the state left out. *)
Definition InstanceStateNamePending : string := "pending".
Definition InstanceStateNameRunning : string := "running".
Definition InstanceStateNameShuttingDown : string := "shutting-down".
Definition InstanceStateNameStopped : string := "stopped".
Definition InstanceStateNameStopping : string := "stopping".
Definition InstanceStateNameTerminated : string := "terminated".

End ec2.

Module rds.

Module DBInstance.
Record t : Set := mk {
  DBInstanceClass : StringValue;
  Engine : StringValue;
  MultiAZ : BooleanValue
}.
End DBInstance.

Module DBInstanceMessage.
Record t : Set := mk { DBInstances : list DBInstance.t }.
End DBInstanceMessage.

Module ReservedDBInstance.
Record t : Set := mk {
  DBInstanceClass : StringValue;
  ProductDescription : StringValue;
  MultiAZ : BooleanValue;
  DBInstanceCount : IntegerValue;
  State : StringValue
}.
End ReservedDBInstance.

Module ReservedDBInstanceMessage.
Record t : Set := mk { ReservedDBInstances : list ReservedDBInstance.t }.
End ReservedDBInstanceMessage.

End rds.

(** ** Normalization of raw records *)

(** rdsiTordsii converts rds.DBInstance to rdsInstInfo; count always set to 1
    and state set to Active. *)
Definition rdsiTordsii (r : rds.DBInstance.t) : rdsInstInfo :=
  {| inst := {| rds_Class := toStr (rds.DBInstance.DBInstanceClass r);
                Product := toStr (rds.DBInstance.Engine r);
                MultiAZ := toBool (rds.DBInstance.MultiAZ r) |};
     Count := 1;
     State := Active |}.

(** rdsriTordsii converts rds.ReservedDBInstance to rdsInstInfo *)
Definition rdsriTordsii (r : rds.ReservedDBInstance.t) : rdsInstInfo :=
  {| inst := {| rds_Class := toStr (rds.ReservedDBInstance.DBInstanceClass r);
                Product := toStr (rds.ReservedDBInstance.ProductDescription r);
                MultiAZ := toBool (rds.ReservedDBInstance.MultiAZ r) |};
     Count := toInt (rds.ReservedDBInstance.DBInstanceCount r);
     State := if decide (toStr (rds.ReservedDBInstance.State r) = "active"%string)
              then Active else UnknownState |}.

(** ec2iToec2ii converts ec2.Instance to ec2InstInfo. Count is always set to
    1, State set to Active for all known states except for the terminated. *)
Definition ec2iToec2ii (r : ec2.Instance.t) : ec2InstInfo :=
  {| inst := {| ec2_Class := toStr (ec2.Instance.InstanceType r);
                VPC := bool_decide (0 < String.length (toStr (ec2.Instance.VPCID r)))%nat |};
     Count := 1;
     State :=
       match ec2.Instance.State r with
       | None => UnknownState
       | Some st =>
           let name := toStr (ec2.InstanceState.Name st) in
           if decide (name = ec2.InstanceStateNameRunning) then Active
           else if decide (name = ec2.InstanceStateNameStopped) then Active
           else if decide (name = ec2.InstanceStateNameStopping) then Active
           else if decide (name = ec2.InstanceStateNameShuttingDown) then Active
           else if decide (name = ec2.InstanceStateNamePending) then Active
           else UnknownState
       end |}.

(** ec2riToec2ii converts ec2.ReservedInstances to ec2InstInfo *)
Definition ec2riToec2ii (r : ec2.ReservedInstances.t) : ec2InstInfo :=
  {| inst := {| ec2_Class := toStr (ec2.ReservedInstances.InstanceType r);
                VPC := Contains (toStr (ec2.ReservedInstances.ProductDescription r))
                                "Amazon VPC" |};
     Count := toInt (ec2.ReservedInstances.InstanceCount r);
     State := if decide (toStr (ec2.ReservedInstances.State r) = "active"%string)
              then Active else UnknownState |}.

Definition stringMultiAZ (b : bool) : string :=
  if negb b then "" else "MultiAZ".

Definition stringVPC (b : bool) : string :=
  if negb b then "" else "VPC".

(** ** The provider gateway

    The four listings of [aws-go], each answering for a region with a result
    or an error.  The credentials the clients are built from are part of the
    gateway. *)
Record Gateway (error : Type) : Type := mk_Gateway {
  DescribeInstances : string -> error + ec2.DescribeInstancesResult.t;
  DescribeDBInstances : string -> error + rds.DBInstanceMessage.t;
  DescribeReservedInstances : string -> error + ec2.DescribeReservedInstancesResult.t;
  DescribeReservedDBInstances : string -> error + rds.ReservedDBInstanceMessage.t
}.
Arguments mk_Gateway {error} _ _ _ _.
Arguments DescribeInstances {error} _ _.
Arguments DescribeDBInstances {error} _ _.
Arguments DescribeReservedInstances {error} _ _.
Arguments DescribeReservedDBInstances {error} _ _.

Section Listings.
Context {error : Type}.

Definition getRunningEC2Instances (gw : Gateway error) (region : string)
  : error + list ec2InstInfo :=
  match DescribeInstances gw region with
  | inl err => inl err
  | inr resp =>
      inr (flat_map (fun r => map ec2iToec2ii (ec2.Reservation.Instances r))
                    (ec2.DescribeInstancesResult.Reservations resp))
  end.

Definition getRunningRDSInstances (gw : Gateway error) (region : string)
  : error + list rdsInstInfo :=
  match DescribeDBInstances gw region with
  | inl err => inl err
  | inr resp => inr (map rdsiTordsii (rds.DBInstanceMessage.DBInstances resp))
  end.

Definition getReservedRDSInstances (gw : Gateway error) (region : string)
  : error + list rdsInstInfo :=
  match DescribeReservedDBInstances gw region with
  | inl err => inl err
  | inr resp =>
      inr (map rdsriTordsii (rds.ReservedDBInstanceMessage.ReservedDBInstances resp))
  end.

Definition getReservedEC2Instances (gw : Gateway error) (region : string)
  : error + list ec2InstInfo :=
  match DescribeReservedInstances gw region with
  | inl err => inl err
  | inr resp =>
      inr (map ec2riToec2ii
               (ec2.DescribeReservedInstancesResult.ReservedInstances resp))
  end.

End Listings.

(** ** The accumulation and the printing loops of [main] *)

(** What the program writes on standard output: the calls of [fmt.Println]
    and of [fmt.Printf] with the formats [ec2fmt] and [rdsfmt], in order. *)
Inductive line : Type :=
  | Println (s : string)
  | Printf_ec2fmt (class vpc : string) (n : Z)
  | Printf_rdsfmt (class product multiaz : string) (n : Z).

(** How [main] ends: it returns, or [log.Fatal err] stops the process. *)
Inductive exit (error : Type) : Type :=
  | Return
  | Fatal (err : error).
Arguments Return {error}.
Arguments Fatal {error} _.

Section Loops.
Context {K : Type} `{Countable K}.

(** [m[k]] read from a Go map: the zero value when the key is absent. *)
Definition map_get (m : gmap K Z) (k : K) : Z := default 0 (m !! k).

(** Body of [for _, ii := range running { if ii.State != Active { continue };
    m[ii.inst] += ii.Count }]. *)
Definition add_active (m : gmap K Z) (ii : InstInfo K) : gmap K Z :=
  if decide (State ii <> Active) then m
  else <[inst ii := int_add (map_get m (inst ii)) (Count ii)]> m.

(** Body of [for _, ii := range reserved { if ii.State != Active { continue };
    m[ii.inst] -= ii.Count }]. *)
Definition sub_active (m : gmap K Z) (ii : InstInfo K) : gmap K Z :=
  if decide (State ii <> Active) then m
  else <[inst ii := int_sub (map_get m (inst ii)) (Count ii)]> m.

(** [for k, v := range m { if v < 1 { continue }; header once; Printf(k, v) }]
    over the entries of the map in the order the iteration visits them. *)
Fixpoint range_on_demand (header : string) (row : K -> Z -> line)
    (headerPrinted : bool) (entries : list (K * Z)) : list line :=
  match entries with
  | [] => []
  | (k, v) :: rest =>
      if v <? 1 then range_on_demand header row headerPrinted rest
      else (if headerPrinted then [] else [Println header])
             ++ row k v :: range_on_demand header row true rest
  end.

(** [for k, v := range m { if v >= 0 { continue }; header once; Printf(k, -v) }]. *)
Fixpoint range_unused (header : string) (row : K -> Z -> line)
    (headerPrinted : bool) (entries : list (K * Z)) : list line :=
  match entries with
  | [] => []
  | (k, v) :: rest =>
      if v >=? 0 then range_unused header row headerPrinted rest
      else (if headerPrinted then [] else [Println header])
             ++ row k (int_neg v) :: range_unused header row true rest
  end.

(** The two accumulation loops over one map: the running records first,
    the reserved records after them. *)
Definition reconcile (running reserved : list (InstInfo K)) : gmap K Z :=
  foldl sub_active (foldl add_active ∅ running) reserved.

End Loops.

Definition ec2row (k : ec2Inst) (v : Z) : line :=
  Printf_ec2fmt (ec2_Class k) (stringVPC (VPC k)) v.

Definition rdsrow (k : rdsInst) (v : Z) : line :=
  Printf_rdsfmt (rds_Class k) (Product k) (stringMultiAZ (MultiAZ k)) v.

Definition newline : Ascii.ascii := Ascii.ascii_of_nat 10.

(** The four printing loops that end [main].  Go visits the entries of a map
    in an order it does not specify; [map_to_list] fixes one, and the
    properties below speak of which lines are printed, never of their
    order. *)
Definition on_demand_ec2 (ei : gmap ec2Inst Z) : list line :=
  range_on_demand (String newline "On-demand EC2 instances:") ec2row false (map_to_list ei).

Definition unused_ec2 (ei : gmap ec2Inst Z) : list line :=
  range_unused (String newline "Unused EC2 reservations:") ec2row false (map_to_list ei).

Definition on_demand_rds (ri : gmap rdsInst Z) : list line :=
  range_on_demand (String newline "On-demand RDS instances:") rdsrow false (map_to_list ri).

Definition unused_rds (ri : gmap rdsInst Z) : list line :=
  range_unused (String newline "Unused RDS reservation:") rdsrow false (map_to_list ri).

Section Main.
Context {error : Type}.

(** [main], after the flags are parsed: the standard output and the way
    the process ends. *)
Definition main (gw : Gateway error) (region : string) : list line * exit error :=
  let ei : gmap ec2Inst Z := ∅ in
  let ri : gmap rdsInst Z := ∅ in
  match getRunningEC2Instances gw region with
  | inl err => ([], Fatal err)
  | inr runningEi =>
  let ei := foldl add_active ei runningEi in
  match getRunningRDSInstances gw region with
  | inl err => ([], Fatal err)
  | inr runningRi =>
  let ri := foldl add_active ri runningRi in
  match getReservedEC2Instances gw region with
  | inl err => ([], Fatal err)
  | inr reservedEi =>
  let ei := foldl sub_active ei reservedEi in
  match getReservedRDSInstances gw region with
  | inl err => ([], Fatal err)
  | inr reservedRi =>
  let ri := foldl sub_active ri reservedRi in
  (on_demand_ec2 ei ++ unused_ec2 ei ++ on_demand_rds ri ++ unused_rds ri,
   Return)
  end end end end.

End Main.

(** ** What the net count of a key is measured against *)

Section Totals.
Context {K : Type} `{Countable K}.

(** The record is Active and belongs to the group [k]. *)
Definition touches (k : K) (ii : InstInfo K) : bool :=
  bool_decide (State ii = Active /\ inst ii = k).

(** The sum, in the integers, of the counts of the Active records of the
    group [k]. *)
Fixpoint active_total (k : K) (l : list (InstInfo K)) : Z :=
  match l with
  | [] => 0
  | ii :: l' => (if touches k ii then Count ii else 0) + active_total k l'
  end.

(** Some Active record of the list belongs to the group [k]. *)
Definition touched (k : K) (l : list (InstInfo K)) : bool :=
  existsb (touches k) l.

(** Active running capacity minus active reserved capacity of the group. *)
Definition net_of (k : K) (running reserved : list (InstInfo K)) : Z :=
  active_total k running - active_total k reserved.

(** The entry of the group [k] after the records have been accumulated:
    none when no Active record names the group, else the net count brought
    back into [int]. *)
Definition net_lookup (k : K) (running reserved : list (InstInfo K)) : option Z :=
  if touched k running || touched k reserved
  then Some (wrap (net_of k running reserved))
  else None.

End Totals.

(** The entries of the map are the net counts of the records seen so far,
    and the map has no other entry. *)
Definition accumulated {K : Type} `{Countable K}
    (m : gmap K Z) (running reserved : list (InstInfo K)) : Prop :=
  forall k, m !! k = net_lookup k running reserved.

(** The equation between a map and the records accumulated into it: the
    value read at every key is the net count, as an [int]. *)
Definition net_equation {K : Type} `{Countable K}
    (m : gmap K Z) (running reserved : list (InstInfo K)) : Prop :=
  forall k, map_get m k = wrap (net_of k running reserved).

(** ** Concrete records used in the examples below *)

Definition m3_large : ec2Inst := {| ec2_Class := "m3.large"; VPC := false |}.

(** An active reservation of [n] instances of class m3.large outside a VPC. *)
Definition reserved_m3_large (n : Z) : ec2.ReservedInstances.t :=
  {| ec2.ReservedInstances.InstanceType := Some "m3.large"%string;
     ec2.ReservedInstances.InstanceCount := Some n;
     ec2.ReservedInstances.ProductDescription := Some "Linux/UNIX"%string;
     ec2.ReservedInstances.State := Some "active"%string |}.

(** An instance of class m3.large outside a VPC in the given state. *)
Definition instance_m3_large (name : string) : ec2.Instance.t :=
  {| ec2.Instance.InstanceType := Some "m3.large"%string;
     ec2.Instance.VPCID := None;
     ec2.Instance.State := Some {| ec2.InstanceState.Name := Some name |} |}.

(** Scenario A of the spec: three instances of one group, one reservation. *)
Definition scenario_A_running : list ec2InstInfo :=
  [ec2iToec2ii (instance_m3_large "running");
   ec2iToec2ii (instance_m3_large "stopped");
   ec2iToec2ii (instance_m3_large "pending")].

Definition scenario_A_reserved : list ec2InstInfo :=
  [ec2riToec2ii (reserved_m3_large 1)].

(** Two active reservations of one group whose counts add up beyond the
    greatest [int]. *)
Definition reserved_beyond_max_int : list ec2InstInfo :=
  [ec2riToec2ii (reserved_m3_large 9223372036854775807);
   ec2riToec2ii (reserved_m3_large 2)].

(** Two active reservations of one group whose counts add up to 2^63. *)
Definition reserved_two_pow_63 : list ec2InstInfo :=
  [ec2riToec2ii (reserved_m3_large 9223372036854775807);
   ec2riToec2ii (reserved_m3_large 1)].

(** Scenario B of the spec: two reserved instances of a group in a VPC,
    nothing running. *)
Definition m3_large_vpc : ec2Inst := {| ec2_Class := "m3.large"; VPC := true |}.

Definition scenario_B_reserved : list ec2InstInfo :=
  [ec2riToec2ii
     {| ec2.ReservedInstances.InstanceType := Some "m3.large"%string;
        ec2.ReservedInstances.InstanceCount := Some 2;
        ec2.ReservedInstances.ProductDescription := Some "Linux/UNIX (Amazon VPC)"%string;
        ec2.ReservedInstances.State := Some "active"%string |}].

(** Scenario C of the spec: the group of the database instances, a running
    instance of it and an active reservation of one instance of it. *)
Definition db_m3_large_mysql : rdsInst :=
  {| rds_Class := "db.m3.large"; Product := "mysql"; MultiAZ := true |}.

Definition scenario_C_running : rds.DBInstance.t :=
  {| rds.DBInstance.DBInstanceClass := Some "db.m3.large"%string;
     rds.DBInstance.Engine := Some "mysql"%string;
     rds.DBInstance.MultiAZ := Some true |}.

Definition scenario_C_reserved : rds.ReservedDBInstance.t :=
  {| rds.ReservedDBInstance.DBInstanceClass := Some "db.m3.large"%string;
     rds.ReservedDBInstance.ProductDescription := Some "mysql"%string;
     rds.ReservedDBInstance.MultiAZ := Some true;
     rds.ReservedDBInstance.DBInstanceCount := Some 1;
     rds.ReservedDBInstance.State := Some "active"%string |}.

(** A gateway that answers with no compute record and with the given
    database records. *)
Definition database_only (error : Type) (running : list rds.DBInstance.t)
    (reserved : list rds.ReservedDBInstance.t) : Gateway error :=
  {| DescribeInstances := fun _ =>
       inr {| ec2.DescribeInstancesResult.Reservations := [] |};
     DescribeDBInstances := fun _ =>
       inr {| rds.DBInstanceMessage.DBInstances := running |};
     DescribeReservedInstances := fun _ =>
       inr {| ec2.DescribeReservedInstancesResult.ReservedInstances := [] |};
     DescribeReservedDBInstances := fun _ =>
       inr {| rds.ReservedDBInstanceMessage.ReservedDBInstances := reserved |} |}.

(** Records of one group in two orders. *)
Definition running_in_order : list ec2InstInfo :=
  [ec2iToec2ii (instance_m3_large "running");
   ec2iToec2ii (instance_m3_large "terminated")].

Definition running_swapped : list ec2InstInfo :=
  [ec2iToec2ii (instance_m3_large "terminated");
   ec2iToec2ii (instance_m3_large "running")].

Definition reserved_in_order : list ec2InstInfo :=
  [ec2riToec2ii (reserved_m3_large 1); ec2riToec2ii (reserved_m3_large 2)].

Definition reserved_swapped : list ec2InstInfo :=
  [ec2riToec2ii (reserved_m3_large 2); ec2riToec2ii (reserved_m3_large 1)].

(** An active reservation of class m3.large without an instance count. *)
Definition reserved_without_count : ec2.ReservedInstances.t :=
  {| ec2.ReservedInstances.InstanceType := Some "m3.large"%string;
     ec2.ReservedInstances.InstanceCount := None;
     ec2.ReservedInstances.ProductDescription := Some "Linux/UNIX"%string;
     ec2.ReservedInstances.State := Some "active"%string |}.

(** An active reservation of a database instance without an instance count. *)
Definition db_reserved_without_count : rds.ReservedDBInstance.t :=
  {| rds.ReservedDBInstance.DBInstanceClass := Some "db.m3.large"%string;
     rds.ReservedDBInstance.ProductDescription := Some "mysql"%string;
     rds.ReservedDBInstance.MultiAZ := Some true;
     rds.ReservedDBInstance.DBInstanceCount := None;
     rds.ReservedDBInstance.State := Some "active"%string |}.

(** ** The shape of a printed section *)

(** A section of the report: nothing at all when it has no row, else its
    header line followed by its rows. *)
Definition section_of (header : string) (rows : list line) : list line :=
  match rows with
  | [] => []
  | _ :: _ => Println header :: rows
  end.

(** The entries of a map an on-demand loop prints, and those a loop of the
    unused reservations prints, in the order the iteration visits them. *)
Definition positive_entries {K : Type} (entries : list (K * Z)) : list (K * Z) :=
  filter (fun e => 1 <= e.2) entries.

Definition negative_entries {K : Type} (entries : list (K * Z)) : list (K * Z) :=
  filter (fun e => e.2 < 0) entries.

(** ** Counting the listed instances of a group *)

(** The number of listed compute instances that normalize to the group [k] in
    an Active state, and the number of listed database instances that
    normalize to the group [k]. *)
Definition active_instances_of (k : ec2Inst) (insts : list ec2.Instance.t) : nat :=
  length (filter (fun r => State (ec2iToec2ii r) = Active /\ inst (ec2iToec2ii r) = k)
                 insts).

Definition db_instances_of (k : rdsInst) (insts : list rds.DBInstance.t) : nat :=
  length (filter (fun r => inst (rdsiTordsii r) = k) insts).

(** Three instances of class m3.large outside a VPC, one of them terminated,
    and one database instance. *)
Definition three_instances : list ec2.Instance.t :=
  [instance_m3_large "running"; instance_m3_large "terminated";
   instance_m3_large "stopped"].

Definition one_db_instance : list rds.DBInstance.t := [scenario_C_running].




(** ** Package [endpoints]: the endpoint of a service in a region *)

Module endpoints.

(** [strings.HasPrefix s prefix]. *)
Definition HasPrefix (s prefix : string) : bool := String.prefix prefix s.

(** The scan of [strings.Replace]: left to right, an occurrence of [old] at
    the current position gives way to [new] and the scan resumes after it
    ([skip] counts the characters of the occurrence still to pass over). *)
Fixpoint replace_from (old new : string) (skip : nat) (s : string) : string :=
  match s with
  | EmptyString => EmptyString
  | String c s' =>
      match skip with
      | S n => replace_from old new n s'
      | O =>
          if String.prefix old s
          then new +:+ replace_from old new (String.length old - 1) s'
          else String c (replace_from old new 0 s')
      end
  end.

(** [strings.Replace(s, old, new, -1)] for a non-empty [old], as in every
    call of [format]: all non-overlapping occurrences of [old] replaced by
    [new].  (Go treats an empty [old] apart; no call passes one.) *)
Definition Replace (s old new : string) : string := replace_from old new 0 s.

Definition format (uri service region : string) : string :=
  let uri := Replace uri "{scheme}" "https" in
  let uri := Replace uri "{service}" service in
  let uri := Replace uri "{region}" region in
  uri.

(** Lookup returns the endpoint for the given service in the given region
    plus any overrides for the service name and region: [inr (uri,
    newService, newRegion)], or [inl] the value of the final [panic].  A case
    of the [switch] that returns nothing is left for the statements after the
    [switch], here [after_switch]. *)
Definition Lookup (service region : string) : string + (string * string * string) :=
  let after_switch : string + (string * string * string) :=
    if HasPrefix region "cn-" then
      inr (format "{scheme}://{service}.{region}.amazonaws.com.cn" service region,
           service, region)
    else if negb (String.eqb region "") then
      inr (format "{scheme}://{service}.{region}.amazonaws.com" service region,
           service, region)
    else inl ("unknown endpoint for " +:+ service +:+ " in " +:+ region) in
  if String.eqb service "cloudfront" then
    if negb (HasPrefix region "cn-") then
      inr (format "https://cloudfront.amazonaws.com" service region,
           service, "us-east-1"%string)
    else after_switch
  else if String.eqb service "dynamodb" then
    if String.eqb region "local" then
      inr (format "http://localhost:8000" service region,
           "dynamodb"%string, "us-east-1"%string)
    else after_switch
  else if String.eqb service "elasticmapreduce" then
    if HasPrefix region "cn-" then
      inr (format "https://elasticmapreduce.cn-north-1.amazonaws.com.cn" service region,
           service, region)
    else if String.eqb region "eu-central-1" then
      inr (format "https://elasticmapreduce.eu-central-1.amazonaws.com" service region,
           service, region)
    else if String.eqb region "us-east-1" then
      inr (format "https://elasticmapreduce.us-east-1.amazonaws.com" service region,
           service, region)
    else if negb (String.eqb region "") then
      inr (format "https://{region}.elasticmapreduce.amazonaws.com" service region,
           service, region)
    else after_switch
  else if String.eqb service "iam" then
    if HasPrefix region "cn-" then
      inr (format "https://{service}.cn-north-1.amazonaws.com.cn" service region,
           service, region)
    else if HasPrefix region "us-gov" then
      inr (format "https://{service}.us-gov.amazonaws.com" service region,
           service, region)
    else
      inr (format "https://iam.amazonaws.com" service region,
           service, "us-east-1"%string)
  else if String.eqb service "importexport" then
    if negb (HasPrefix region "cn-") then
      inr (format "https://importexport.amazonaws.com" service region,
           service, region)
    else after_switch
  else if String.eqb service "rds" then
    if String.eqb region "us-east-1" then
      inr (format "https://rds.amazonaws.com" service region, service, region)
    else after_switch
  else if String.eqb service "route53" then
    if negb (HasPrefix region "cn-") then
      inr (format "https://route53.amazonaws.com" service region, service, region)
    else after_switch
  else if String.eqb service "s3" then
    if String.eqb region "us-east-1" || String.eqb region "" then
      inr (format "{scheme}://s3.amazonaws.com" service region,
           service, "us-east-1"%string)
    else if HasPrefix region "cn-" then
      inr (format "{scheme}://{service}.{region}.amazonaws.com.cn" service region,
           service, region)
    else if String.eqb region "us-east-1" || String.eqb region "ap-northeast-1"
            || String.eqb region "sa-east-1" || String.eqb region "ap-southeast-1"
            || String.eqb region "ap-southeast-2" || String.eqb region "us-west-2"
            || String.eqb region "us-west-1" || String.eqb region "eu-west-1"
            || String.eqb region "us-gov-west-1"
            || String.eqb region "fips-us-gov-west-1" then
      inr (format "{scheme}://{service}-{region}.amazonaws.com" service region,
           service, region)
    else if negb (String.eqb region "") then
      inr (format "{scheme}://{service}.{region}.amazonaws.com" service region,
           service, region)
    else after_switch
  else if String.eqb service "sdb" then
    if String.eqb region "us-east-1" then
      inr (format "https://sdb.amazonaws.com" service region, service, region)
    else after_switch
  else if String.eqb service "sqs" then
    if String.eqb region "us-east-1" then
      inr (format "https://queue.amazonaws.com" service region, service, region)
    else if HasPrefix region "cn-" then
      inr (format "https://{region}.queue.amazonaws.com.cn" service region,
           service, region)
    else if negb (String.eqb region "") then
      inr (format "https://{region}.queue.amazonaws.com" service region,
           service, region)
    else after_switch
  else if String.eqb service "sts" then
    if HasPrefix region "cn-" then
      inr (format "{scheme}://{service}.cn-north-1.amazonaws.com.cn" service region,
           service, region)
    else if HasPrefix region "us-gov" then
      inr (format "https://{service}.{region}.amazonaws.com" service region,
           service, region)
    else
      inr (format "https://sts.amazonaws.com" service region,
           service, "us-east-1"%string)
  else after_switch.

(** The services that have a case of their own in [Lookup]. *)
Definition cases : list string :=
  ["cloudfront"; "dynamodb"; "elasticmapreduce"; "iam"; "importexport"; "rds";
   "route53"; "s3"; "sdb"; "sqs"; "sts"]%string.

End endpoints.

(** The regional endpoint that [endpoints.Lookup] makes for a service without
    a rule of its own: [https://<service>.<region>.amazonaws.com], with
    [.cn] appended in the regions whose name starts with [cn-]. *)
Definition regional_endpoint (service region : string) : string :=
  ("https://" +:+ service +:+ "." +:+ region
     +:+ (if endpoints.HasPrefix region "cn-"
          then ".amazonaws.com.cn" else ".amazonaws.com"))%string.

(** ** Package [model]: the description of the endpoints the generator reads *)

Module model.

(** A value held in an [interface{}] after [encoding/json] has decoded it:
    nil, a string, a slice of such values, or a value of any other dynamic
    type (a number, a boolean, an object). *)
Inductive value : Type :=
  | VNil
  | VString (s : string)
  | VSlice (l : list value)
  | VOther.

(** The ways a function of the package panics: an index out of range, a
    failed type assertion, and [panic(fmt.Sprintf("unknown operator: %v",
    c[1]))], kept with the operator it reports. *)
Inductive panic : Type :=
  | IndexOutOfRange
  | BadConversion
  | UnknownOperator (operator : value).

Definition bind {A B : Type} (x : panic + A) (f : A -> panic + B) : panic + B :=
  match x with
  | inl p => inl p
  | inr a => f a
  end.

Local Notation "x <- e ;; k" := (bind e (fun x => k))
  (at level 100, e at next level, right associativity, only parsing).

(** A loop that appends [f a] for each [a] in turn, stopped by the first
    panic. *)
Fixpoint for_each {A B : Type} (f : A -> panic + B) (l : list A) : panic + list B :=
  match l with
  | [] => inr []
  | a :: l' => b <- f a ;; bs <- for_each f l' ;; inr (b :: bs)
  end.

(** [strings.Join elems sep]. *)
Fixpoint Join (elems : list string) (sep : string) : string :=
  match elems with
  | [] => ""
  | [e] => e
  | e :: rest => e +:+ sep +:+ Join rest sep
  end.

(** [c[i]] on a slice. *)
Definition index (c : list value) (i : nat) : panic + value :=
  match c !! i with
  | Some v => inr v
  | None => inl IndexOutOfRange
  end.

(** The closure [str] of [Condition]: the empty string for nil, else the
    type assertion [i.(string)]. *)
Definition str (i : value) : panic + string :=
  match i with
  | VNil => inr ""%string
  | VString s => inr s
  | _ => inl BadConversion
  end.

(** The type assertion [v.([]interface{})]. *)
Definition as_slice (v : value) : panic + list value :=
  match v with
  | VSlice l => inr l
  | _ => inl BadConversion
  end.

Module Constraint.

(** A Constraint is a set of constraints on input types. *)
Definition t : Type := list value.

(** Condition returns a Go fragment which matches the constraint.  [quote]
    is the verb [%q] of [fmt] on a string.  The arguments of a call are
    evaluated from left to right. *)
Definition Condition (quote : string -> string) (c : t) : panic + string :=
  operator <- index c 1 ;;
  match operator with
  | VString op =>
      if String.eqb op "startsWith" then
        a <- (v <- index c 0 ;; str v) ;;
        b <- (v <- index c 2 ;; str v) ;;
        inr ("strings.HasPrefix(" +:+ a +:+ ", " +:+ quote b +:+ ")")%string
      else if String.eqb op "notStartsWith" then
        a <- (v <- index c 0 ;; str v) ;;
        b <- (v <- index c 2 ;; str v) ;;
        inr ("!strings.HasPrefix(" +:+ a +:+ ", " +:+ quote b +:+ ")")%string
      else if String.eqb op "equals" then
        a <- (v <- index c 0 ;; str v) ;;
        b <- (v <- index c 2 ;; str v) ;;
        inr (a +:+ " == " +:+ quote b)%string
      else if String.eqb op "notEquals" then
        a <- (v <- index c 0 ;; str v) ;;
        b <- (v <- index c 2 ;; str v) ;;
        inr (a +:+ " != " +:+ quote b)%string
      else if String.eqb op "oneOf" then
        l <- (v <- index c 2 ;; as_slice v) ;;
        values <- for_each str l ;;
        conditions <-
          for_each (fun v => a <- (v0 <- index c 0 ;; str v0) ;;
                             inr (a +:+ " == " +:+ quote v)%string) values ;;
        inr (Join conditions " || ")
      else inl (UnknownOperator operator)
  | _ => inl (UnknownOperator operator)
  end.

End Constraint.

Module CredentialScope.
(** CredentialScope is a set of overrides for the service region and name. *)
Record t : Type := mk { Region : string; Service : string }.
End CredentialScope.

Module Properties.
(** Properties is a set of properties associated with an Endpoint. *)
Record t : Type := mk { CredentialScope : CredentialScope.t }.
End Properties.

Module Endpoint.

(** An Endpoint is an URL where a service is available. *)
Record t : Type := mk {
  Name : string;
  URI : string;
  Properties : Properties.t;
  Constraints : list Constraint.t
}.

(** Service returns the Go literal or variable for the service. *)
Definition Service (quote : string -> string) (e : t) : string :=
  if negb (String.eqb (CredentialScope.Service (Properties.CredentialScope (Properties e))) "")
  then quote (CredentialScope.Service (Properties.CredentialScope (Properties e)))
  else "service".

(** Region returns the Go literal or variable for the region. *)
Definition Region (quote : string -> string) (e : t) : string :=
  if negb (String.eqb (CredentialScope.Region (Properties.CredentialScope (Properties e))) "")
  then quote (CredentialScope.Region (Properties.CredentialScope (Properties e)))
  else "region".

(** Conditions returns the conjunction of the conditions for the endpoint. *)
Definition Conditions (quote : string -> string) (e : t) : panic + string :=
  conds <- for_each (fun c => s <- Constraint.Condition quote c ;;
                              inr ("(" +:+ s +:+ ")")%string) (Constraints e) ;;
  inr (Join conds " && ").

End Endpoint.

(** The operators [Condition] knows. *)
Definition operators : list string :=
  ["startsWith"; "notStartsWith"; "equals"; "notEquals"; "oneOf"]%string.

(** The values the closure [str] accepts: nil and the strings. *)
Definition is_str_or_nil (v : value) : bool :=
  match v with
  | VNil | VString _ => true
  | _ => false
  end.

End model.

(** * Properties *)

(** ** Arithmetic of [int] *)

Lemma wrap_is_int (z : Z) : is_int (wrap z).
Proof.
  unfold is_int, wrap, min_int, max_int, int_modulus.
  pose proof (Z.mod_pos_bound (z - -9223372036854775808) 18446744073709551616).
  lia.
Qed.

Lemma wrap_id (z : Z) : is_int z -> wrap z = z.
Proof.
  unfold is_int, wrap, min_int, max_int, int_modulus. intros Hz.
  rewrite Z.mod_small; lia.
Qed.

Lemma wrap_add_l (a b : Z) : wrap (wrap a + b) = wrap (a + b).
Proof.
  unfold wrap. f_equal.
  replace ((a - min_int) mod int_modulus + min_int + b - min_int)
    with ((a - min_int) mod int_modulus + b) by lia.
  rewrite Z.add_mod_idemp_l by (unfold int_modulus; lia).
  f_equal. lia.
Qed.

Lemma wrap_sub_l (a b : Z) : wrap (wrap a - b) = wrap (a - b).
Proof. rewrite <- !Z.add_opp_r. apply wrap_add_l. Qed.

Lemma int_neg_min_int : int_neg min_int = min_int.
Proof. reflexivity. Qed.

Lemma int_neg_exact (v : Z) : is_int v -> v <> min_int -> int_neg v = - v.
Proof.
  unfold is_int, min_int, max_int. intros Hv Hne.
  apply wrap_id. unfold is_int, min_int, max_int. lia.
Qed.

(** ** The accumulation loops *)

Section Accumulation.
Context {K : Type} `{Countable K}.
Implicit Types (m : gmap K Z) (ii : InstInfo K) (k : K)
               (R S l : list (InstInfo K)).

Lemma touches_true k ii : touches k ii = true <-> State ii = Active /\ inst ii = k.
Proof. unfold touches. apply bool_decide_eq_true. Qed.

Lemma add_active_lookup m ii k :
  add_active m ii !! k =
    if touches k ii then Some (wrap (map_get m k + Count ii)) else m !! k.
Proof.
  unfold add_active, touches, int_add.
  destruct (decide (State ii <> Active)) as [Hs|Hs].
  - rewrite bool_decide_eq_false_2; [done | tauto].
  - apply dec_stable in Hs.
    destruct (decide (inst ii = k)) as [->|Hk].
    + rewrite bool_decide_eq_true_2 by done. by rewrite lookup_insert_eq.
    + rewrite bool_decide_eq_false_2 by tauto. by rewrite lookup_insert_ne.
Qed.

Lemma sub_active_lookup m ii k :
  sub_active m ii !! k =
    if touches k ii then Some (wrap (map_get m k - Count ii)) else m !! k.
Proof.
  unfold sub_active, touches, int_sub.
  destruct (decide (State ii <> Active)) as [Hs|Hs].
  - rewrite bool_decide_eq_false_2; [done | tauto].
  - apply dec_stable in Hs.
    destruct (decide (inst ii = k)) as [->|Hk].
    + rewrite bool_decide_eq_true_2 by done. by rewrite lookup_insert_eq.
    + rewrite bool_decide_eq_false_2 by tauto. by rewrite lookup_insert_ne.
Qed.

Lemma active_total_app k l1 l2 :
  active_total k (l1 ++ l2) = active_total k l1 + active_total k l2.
Proof. induction l1 as [|ii l1 IH]; simpl; [done | rewrite IH; lia]. Qed.

Lemma touched_app k l1 l2 : touched k (l1 ++ l2) = touched k l1 || touched k l2.
Proof. unfold touched. apply existsb_app. Qed.

Lemma untouched_total k l : touched k l = false -> active_total k l = 0.
Proof.
  induction l as [|ii l IH]; simpl; [done |].
  intros [Hii Hl]%orb_false_iff. rewrite Hii, IH by done. done.
Qed.

Lemma active_total_perm k l1 l2 :
  l1 ≡ₚ l2 -> active_total k l1 = active_total k l2.
Proof. induction 1; simpl; lia. Qed.

Lemma touched_perm k l1 l2 : l1 ≡ₚ l2 -> touched k l1 = touched k l2.
Proof.
  unfold touched.
  induction 1 as [|x l1 l2 _ IH|x y l|l1 l2 l3 _ IH1 _ IH2]; simpl.
  - done.
  - by rewrite IH.
  - destruct (touches k x), (touches k y); done.
  - by rewrite IH1.
Qed.

Lemma net_lookup_perm k R R' S S' :
  R ≡ₚ R' -> S ≡ₚ S' -> net_lookup k R S = net_lookup k R' S'.
Proof.
  intros HR HS. unfold net_lookup, net_of.
  by rewrite (touched_perm k R R'), (touched_perm k S S'),
    (active_total_perm k R R'), (active_total_perm k S S').
Qed.

Lemma accumulated_get m R S k :
  accumulated m R S -> map_get m k = wrap (net_of k R S).
Proof.
  intros Hm. unfold map_get. rewrite (Hm k). unfold net_lookup, net_of.
  destruct (touched k R) eqn:HR, (touched k S) eqn:HS; simpl; try done.
  by rewrite !untouched_total.
Qed.

Lemma accumulated_empty : accumulated (∅ : gmap K Z) [] [].
Proof. intros k. by rewrite lookup_empty. Qed.

Lemma accumulated_add m R S ii :
  accumulated m R S -> accumulated (add_active m ii) (R ++ [ii]) S.
Proof.
  intros Hm k. rewrite add_active_lookup, (accumulated_get m R S k Hm).
  unfold net_lookup, net_of.
  rewrite touched_app, active_total_app. cbn [active_total touched existsb].
  destruct (touches k ii) eqn:Hii.
  - rewrite orb_true_r, wrap_add_l. cbn [orb].
    by replace (active_total k R - active_total k S + Count ii)
      with (active_total k R + (Count ii + 0) - active_total k S) by lia.
  - rewrite !orb_false_r, (Hm k). unfold net_lookup, net_of.
    by replace (active_total k R + (0 + 0)) with (active_total k R) by lia.
Qed.

Lemma accumulated_sub m R S ii :
  accumulated m R S -> accumulated (sub_active m ii) R (S ++ [ii]).
Proof.
  intros Hm k. rewrite sub_active_lookup, (accumulated_get m R S k Hm).
  unfold net_lookup, net_of.
  rewrite touched_app, active_total_app. cbn [active_total touched existsb].
  destruct (touches k ii) eqn:Hii.
  - rewrite !orb_true_r, wrap_sub_l.
    by replace (active_total k R - active_total k S - Count ii)
      with (active_total k R - (active_total k S + (Count ii + 0))) by lia.
  - rewrite !orb_false_r, (Hm k). unfold net_lookup, net_of.
    by replace (active_total k S + (0 + 0)) with (active_total k S) by lia.
Qed.

Lemma accumulated_foldl_add l : forall m R S,
  accumulated m R S -> accumulated (foldl add_active m l) (R ++ l) S.
Proof.
  induction l as [|ii l IH]; intros m R S Hm; simpl.
  - by rewrite app_nil_r.
  - rewrite (cons_middle ii R l), app_assoc.
    by apply IH, accumulated_add.
Qed.

Lemma accumulated_foldl_sub l : forall m R S,
  accumulated m R S -> accumulated (foldl sub_active m l) R (S ++ l).
Proof.
  induction l as [|ii l IH]; intros m R S Hm; simpl.
  - by rewrite app_nil_r.
  - rewrite (cons_middle ii S l), app_assoc.
    by apply IH, accumulated_sub.
Qed.

Lemma reconcile_accumulated R S : accumulated (reconcile R S) R S.
Proof.
  unfold reconcile.
  apply (accumulated_foldl_sub S _ R []), (accumulated_foldl_add R ∅ [] []),
    accumulated_empty.
Qed.

Lemma reconcile_lookup R S k : reconcile R S !! k = net_lookup k R S.
Proof. apply reconcile_accumulated. Qed.

Lemma reconcile_is_int R S k v : reconcile R S !! k = Some v -> is_int v.
Proof.
  rewrite reconcile_lookup. unfold net_lookup.
  destruct (_ || _); [|done]. intros [= <-]. apply wrap_is_int.
Qed.

Lemma reconcile_perm R R' S S' :
  R ≡ₚ R' -> S ≡ₚ S' -> reconcile R S = reconcile R' S'.
Proof.
  intros HR HS. apply map_eq. intros k.
  rewrite !reconcile_lookup. by apply net_lookup_perm.
Qed.

Lemma add_active_skip m ii : State ii <> Active -> add_active m ii = m.
Proof. intros Hs. unfold add_active. by rewrite decide_True. Qed.

Lemma sub_active_skip m ii : State ii <> Active -> sub_active m ii = m.
Proof. intros Hs. unfold sub_active. by rewrite decide_True. Qed.

End Accumulation.

(** ** The printing loops *)

Section Printing.
Context {K : Type} `{Countable K}.
Variables (header : string) (row : K -> Z -> line).

Lemma elem_of_range_on_demand (entries : list (K * Z)) : forall headerPrinted x,
  x ∈ range_on_demand header row headerPrinted entries <->
    (headerPrinted = false /\ x = Println header
       /\ exists k v, (k, v) ∈ entries /\ 1 <= v)
    \/ (exists k v, (k, v) ∈ entries /\ 1 <= v /\ x = row k v).
Proof.
  induction entries as [|[k v] rest IH]; intros hp x; simpl.
  - split; [by intros ?%not_elem_of_nil |].
    intros [(_ & _ & k & v & []%not_elem_of_nil & _)
           |(k & v & []%not_elem_of_nil & _)].
  - destruct (Z.ltb_spec v 1) as [Hv|Hv].
    + rewrite IH. split.
      * intros [(-> & -> & k' & v' & Hin & Hv')|(k' & v' & Hin & Hv' & ->)].
        -- left. repeat split; try done. exists k', v'. by rewrite elem_of_cons; auto.
        -- right. exists k', v'. by rewrite elem_of_cons; auto.
      * intros [(-> & -> & k' & v' & [[= -> ->]|Hin]%elem_of_cons & Hv')
               |(k' & v' & [[= -> ->]|Hin]%elem_of_cons & Hv' & ->)];
          try lia.
        -- left. repeat split; try done. by exists k', v'.
        -- right. by exists k', v'.
    + rewrite elem_of_app, elem_of_cons, IH. split.
      * intros [Hhdr|[->|[(? & _)|(k' & v' & Hin & Hv' & ->)]]]; try done.
        -- destruct hp; [by apply not_elem_of_nil in Hhdr |].
           apply list_elem_of_singleton in Hhdr as ->.
           left. repeat split; try done. exists k, v. by rewrite elem_of_cons; auto.
        -- right. exists k, v. by rewrite elem_of_cons; auto.
        -- right. exists k', v'. by rewrite elem_of_cons; auto.
      * intros [(-> & -> & _)
               |(k' & v' & [[= -> ->]|Hin]%elem_of_cons & Hv' & ->)].
        -- left. by apply list_elem_of_singleton.
        -- right. by left.
        -- right. right. right. by exists k', v'.
Qed.

Lemma elem_of_range_unused (entries : list (K * Z)) : forall headerPrinted x,
  x ∈ range_unused header row headerPrinted entries <->
    (headerPrinted = false /\ x = Println header
       /\ exists k v, (k, v) ∈ entries /\ v < 0)
    \/ (exists k v, (k, v) ∈ entries /\ v < 0 /\ x = row k (int_neg v)).
Proof.
  induction entries as [|[k v] rest IH]; intros hp x; simpl.
  - split; [by intros ?%not_elem_of_nil |].
    intros [(_ & _ & k & v & []%not_elem_of_nil & _)
           |(k & v & []%not_elem_of_nil & _)].
  - destruct (Z.geb_spec v 0) as [Hv|Hv].
    + rewrite IH. split.
      * intros [(-> & -> & k' & v' & Hin & Hv')|(k' & v' & Hin & Hv' & ->)].
        -- left. repeat split; try done. exists k', v'. by rewrite elem_of_cons; auto.
        -- right. exists k', v'. by rewrite elem_of_cons; auto.
      * intros [(-> & -> & k' & v' & [[= -> ->]|Hin]%elem_of_cons & Hv')
               |(k' & v' & [[= -> ->]|Hin]%elem_of_cons & Hv' & ->)];
          try lia.
        -- left. repeat split; try done. by exists k', v'.
        -- right. by exists k', v'.
    + rewrite elem_of_app, elem_of_cons, IH. split.
      * intros [Hhdr|[->|[(? & _)|(k' & v' & Hin & Hv' & ->)]]]; try done.
        -- destruct hp; [by apply not_elem_of_nil in Hhdr |].
           apply list_elem_of_singleton in Hhdr as ->.
           left. repeat split; try done. exists k, v. by rewrite elem_of_cons; auto.
        -- right. exists k, v. by rewrite elem_of_cons; auto.
        -- right. exists k', v'. by rewrite elem_of_cons; auto.
      * intros [(-> & -> & _)
               |(k' & v' & [[= -> ->]|Hin]%elem_of_cons & Hv' & ->)].
        -- left. by apply list_elem_of_singleton.
        -- right. by left.
        -- right. right. right. by exists k', v'.
Qed.

End Printing.

Section Buckets.
Context {K : Type} `{Countable K}.
Variables (header : string) (row : K -> Z -> line).
Hypothesis row_inj : forall k v k' v', row k v = row k' v' -> k = k' /\ v = v'.
Hypothesis row_not_header : forall k v s, row k v <> Println s.
Implicit Types (m : gmap K Z) (k : K).

Lemma row_on_demand m k n :
  row k n ∈ range_on_demand header row false (map_to_list m) <->
    m !! k = Some n /\ 1 <= n.
Proof.
  rewrite elem_of_range_on_demand. split.
  - intros [(_ & Hrow & _)|(k' & v' & Hin & Hv & Hrow)].
    + by apply row_not_header in Hrow.
    + apply row_inj in Hrow as [-> ->]. by apply elem_of_map_to_list in Hin.
  - intros [Hk Hn]. right. exists k, n. by rewrite elem_of_map_to_list.
Qed.

Lemma row_unused m k n :
  row k n ∈ range_unused header row false (map_to_list m) <->
    exists v, m !! k = Some v /\ v < 0 /\ n = int_neg v.
Proof.
  rewrite elem_of_range_unused. split.
  - intros [(_ & Hrow & _)|(k' & v' & Hin & Hv & Hrow)].
    + by apply row_not_header in Hrow.
    + apply row_inj in Hrow as [-> ->]. exists v'.
      by apply elem_of_map_to_list in Hin.
  - intros (v & Hk & Hv & ->). right. exists k, v.
    by rewrite elem_of_map_to_list.
Qed.

(** Two maps that agree on their positive entries print the same lines in
    the on-demand loop. *)
Lemma on_demand_same_lines m m' :
  (forall k v, 1 <= v -> m' !! k = Some v <-> m !! k = Some v) ->
  forall x, x ∈ range_on_demand header row false (map_to_list m')
        <-> x ∈ range_on_demand header row false (map_to_list m).
Proof.
  intros Hmm x. rewrite !elem_of_range_on_demand.
  setoid_rewrite elem_of_map_to_list.
  split; (intros [(? & ? & k & v & Hk & Hv)|(k & v & Hk & Hv & ?)];
    [left; repeat split; try done | right]; exists k, v;
    repeat split; try done; by apply (Hmm k v Hv)).
Qed.

(** Two maps that agree on their negative entries print the same lines in
    the loop of the unused reservations. *)
Lemma unused_same_lines m m' :
  (forall k v, v < 0 -> m' !! k = Some v <-> m !! k = Some v) ->
  forall x, x ∈ range_unused header row false (map_to_list m')
        <-> x ∈ range_unused header row false (map_to_list m).
Proof.
  intros Hmm x. rewrite !elem_of_range_unused.
  setoid_rewrite elem_of_map_to_list.
  split; (intros [(? & ? & k & v & Hk & Hv)|(k & v & Hk & Hv & ?)];
    [left; repeat split; try done | right]; exists k, v;
    repeat split; try done; by apply (Hmm k v Hv)).
Qed.

End Buckets.

Lemma stringVPC_inj (b b' : bool) : stringVPC b = stringVPC b' -> b = b'.
Proof. by destruct b, b'. Qed.

Lemma stringMultiAZ_inj (b b' : bool) : stringMultiAZ b = stringMultiAZ b' -> b = b'.
Proof. by destruct b, b'. Qed.

Lemma ec2row_inj k v k' v' : ec2row k v = ec2row k' v' -> k = k' /\ v = v'.
Proof.
  destruct k, k'. unfold ec2row. simpl.
  intros [= -> ->%stringVPC_inj ->]. done.
Qed.

Lemma rdsrow_inj k v k' v' : rdsrow k v = rdsrow k' v' -> k = k' /\ v = v'.
Proof.
  destruct k, k'. unfold rdsrow. simpl.
  intros [= -> -> ->%stringMultiAZ_inj ->]. done.
Qed.

Lemma ec2row_not_header k v s : ec2row k v <> Println s.
Proof. done. Qed.

Lemma rdsrow_not_header k v s : rdsrow k v <> Println s.
Proof. done. Qed.

(** A group is printed among the on-demand EC2 instances exactly with its
    positive net count. *)
Lemma on_demand_ec2_row ei k n :
  ec2row k n ∈ on_demand_ec2 ei <-> ei !! k = Some n /\ 1 <= n.
Proof. apply row_on_demand; [apply ec2row_inj | apply ec2row_not_header]. Qed.

Lemma unused_ec2_row ei k n :
  ec2row k n ∈ unused_ec2 ei <-> exists v, ei !! k = Some v /\ v < 0 /\ n = int_neg v.
Proof. apply row_unused; [apply ec2row_inj | apply ec2row_not_header]. Qed.

Lemma on_demand_rds_row ri k n :
  rdsrow k n ∈ on_demand_rds ri <-> ri !! k = Some n /\ 1 <= n.
Proof. apply row_on_demand; [apply rdsrow_inj | apply rdsrow_not_header]. Qed.

Lemma unused_rds_row ri k n :
  rdsrow k n ∈ unused_rds ri <-> exists v, ri !! k = Some v /\ v < 0 /\ n = int_neg v.
Proof. apply row_unused; [apply rdsrow_inj | apply rdsrow_not_header]. Qed.

(** ** The net count of a group *)

Section NetEquation.
Context {K : Type} `{Countable K}.
Implicit Types (m : gmap K Z) (ii : InstInfo K) (k : K)
               (R S : list (InstInfo K)).

Lemma map_get_add_active m ii k :
  map_get (add_active m ii) k =
    if touches k ii then wrap (map_get m k + Count ii) else map_get m k.
Proof.
  unfold map_get at 1. rewrite add_active_lookup. by destruct (touches k ii).
Qed.

Lemma map_get_sub_active m ii k :
  map_get (sub_active m ii) k =
    if touches k ii then wrap (map_get m k - Count ii) else map_get m k.
Proof.
  unfold map_get at 1. rewrite sub_active_lookup. by destruct (touches k ii).
Qed.

Lemma net_equation_add m R S ii :
  net_equation m R S -> net_equation (add_active m ii) (R ++ [ii]) S.
Proof.
  intros Hm k. rewrite map_get_add_active, (Hm k). unfold net_of.
  rewrite active_total_app. cbn [active_total].
  destruct (touches k ii).
  - rewrite wrap_add_l.
    by replace (active_total k R - active_total k S + Count ii)
      with (active_total k R + (Count ii + 0) - active_total k S) by lia.
  - by replace (active_total k R + (0 + 0)) with (active_total k R) by lia.
Qed.

Lemma net_equation_sub m R S ii :
  net_equation m R S -> net_equation (sub_active m ii) R (S ++ [ii]).
Proof.
  intros Hm k. rewrite map_get_sub_active, (Hm k). unfold net_of.
  rewrite active_total_app. cbn [active_total].
  destruct (touches k ii).
  - rewrite wrap_sub_l.
    by replace (active_total k R - active_total k S - Count ii)
      with (active_total k R - (active_total k S + (Count ii + 0))) by lia.
  - by replace (active_total k S + (0 + 0)) with (active_total k S) by lia.
Qed.

Lemma net_equation_reconcile R S : net_equation (reconcile R S) R S.
Proof. intros k. apply accumulated_get, reconcile_accumulated. Qed.

Lemma net_exact R S k :
  is_int (net_of k R S) -> map_get (reconcile R S) k = net_of k R S.
Proof. intros Hint. rewrite net_equation_reconcile. by apply wrap_id. Qed.

End NetEquation.

(** C1, as the spec has it, fails: the counts are Go [int]s and the
    accumulation wraps around.  Two active reservations of 9223372036854775807
    and of 2 instances of one group, with nothing running, leave the net count
    9223372036854775807 in the map, where the difference of the sums is
    -9223372036854775809. *)
Lemma net_count_wraps_around :
  active_total m3_large reserved_beyond_max_int = 9223372036854775809
  /\ active_total m3_large ([] : list ec2InstInfo) = 0
  /\ map_get (reconcile [] reserved_beyond_max_int) m3_large = 9223372036854775807
  /\ map_get (reconcile [] reserved_beyond_max_int) m3_large
       <> active_total m3_large [] - active_total m3_large reserved_beyond_max_int.
Proof. vm_compute. repeat split; congruence. Qed.

(** C1 (amended): for the compute map and for the database map alike, the
    value read at every key k after the two accumulation loops is the sum of
    the counts of the Active running records of k minus the sum of the counts
    of the Active reserved records of k, brought into the range of [int] by
    wrap-around; it is that difference itself whenever the difference is an
    [int].  The equation, with the wrap-around, is kept by every accumulation
    step: [+= Count] for an Active running record, [-= Count] for an Active
    reserved record (and trivially by the skip of any other record). *)
Theorem net_count_invariant :
  ((forall (m : gmap ec2Inst Z) (R S : list ec2InstInfo) (ii : ec2InstInfo),
       net_equation m R S ->
       net_equation (add_active m ii) (R ++ [ii]) S
       /\ net_equation (sub_active m ii) R (S ++ [ii]))
   /\ (forall (R S : list ec2InstInfo) (k : ec2Inst),
         map_get (reconcile R S) k = wrap (net_of k R S)
         /\ (is_int (net_of k R S) -> map_get (reconcile R S) k = net_of k R S)))
  /\
  ((forall (m : gmap rdsInst Z) (R S : list rdsInstInfo) (ii : rdsInstInfo),
       net_equation m R S ->
       net_equation (add_active m ii) (R ++ [ii]) S
       /\ net_equation (sub_active m ii) R (S ++ [ii]))
   /\ (forall (R S : list rdsInstInfo) (k : rdsInst),
         map_get (reconcile R S) k = wrap (net_of k R S)
         /\ (is_int (net_of k R S) -> map_get (reconcile R S) k = net_of k R S))).
Proof.
  split; (split; [intros m R S ii Hm; split | intros R S k; split]).
  - exact (net_equation_add m R S ii Hm).
  - exact (net_equation_sub m R S ii Hm).
  - exact (net_equation_reconcile R S k).
  - exact (net_exact R S k).
  - exact (net_equation_add m R S ii Hm).
  - exact (net_equation_sub m R S ii Hm).
  - exact (net_equation_reconcile R S k).
  - exact (net_exact R S k).
Qed.

Lemma net_count_invariant_witness :
  is_int (net_of m3_large scenario_A_running scenario_A_reserved)
  /\ map_get (reconcile scenario_A_running scenario_A_reserved) m3_large = 2
  /\ net_equation (∅ : gmap ec2Inst Z) [] []
  /\ net_equation (add_active ∅ (ec2iToec2ii (instance_m3_large "running")))
       ([] ++ [ec2iToec2ii (instance_m3_large "running")]) [].
Proof.
  destruct net_count_invariant as [[Hstep Hnet] _].
  assert (Hint : is_int (net_of m3_large scenario_A_running scenario_A_reserved))
    by (vm_compute; split; discriminate).
  assert (Hempty : net_equation (∅ : gmap ec2Inst Z) [] [])
    by (intros k; reflexivity).
  split; [exact Hint |]. split; [| split; [exact Hempty |]].
  - exact (proj2 (Hnet scenario_A_running scenario_A_reserved m3_large) Hint).
  - exact (proj1 (Hstep ∅ [] [] (ec2iToec2ii (instance_m3_large "running")) Hempty)).
Defined.

(** ** Classification by the sign of the net count *)

Section SignRule.
Context {K : Type} `{Countable K}.
Variables (row : K -> Z -> line) (on_demand unused : gmap K Z -> list line).
Hypothesis on_demand_row : forall m k n,
  row k n ∈ on_demand m <-> m !! k = Some n /\ 1 <= n.
Hypothesis unused_row : forall m k n,
  row k n ∈ unused m <-> exists v, m !! k = Some v /\ v < 0 /\ n = int_neg v.
Implicit Types (m : gmap K Z) (k : K).

Lemma positive_net_on_demand m k net :
  m !! k = Some net -> 0 < net ->
  row k net ∈ on_demand m /\ forall n, row k n ∉ unused m.
Proof.
  intros Hk Hnet. split.
  - apply on_demand_row. split; [done | lia].
  - intros n (v & Hv & Hneg & _)%unused_row.
    rewrite Hk in Hv. injection Hv as <-. lia.
Qed.

Lemma negative_net_unused m k net :
  m !! k = Some net -> net < 0 ->
  row k (int_neg net) ∈ unused m /\ forall n, row k n ∉ on_demand m.
Proof.
  intros Hk Hnet. split.
  - apply unused_row. by exists net.
  - intros n [Hn Hpos]%on_demand_row.
    rewrite Hk in Hn. injection Hn as <-. lia.
Qed.

Lemma zero_net_unlisted m k n :
  m !! k = Some 0 -> (row k n ∉ on_demand m) /\ (row k n ∉ unused m).
Proof.
  intros Hk. split.
  - intros [Hn Hpos]%on_demand_row.
    rewrite Hk in Hn. injection Hn as <-. lia.
  - intros (v & Hv & Hneg & _)%unused_row.
    rewrite Hk in Hv. injection Hv as <-. lia.
Qed.

Lemma buckets_disjoint m k n n' :
  ~ (row k n ∈ on_demand m /\ row k n' ∈ unused m).
Proof.
  intros [Hod Hun].
  apply on_demand_row in Hod as [Hn Hpos].
  apply unused_row in Hun as (v & Hv & Hneg & _).
  rewrite Hn in Hv. injection Hv as <-. lia.
Qed.

Lemma on_demand_value_positive m k n : row k n ∈ on_demand m -> 0 < n.
Proof. intros [_ Hn]%on_demand_row. lia. Qed.

Lemma unused_value_positive m k n :
  map_Forall (fun _ v => is_int v) m ->
  row k n ∈ unused m -> 0 < n \/ n = min_int.
Proof.
  intros Hm (v & Hv & Hneg & ->)%unused_row.
  apply Hm in Hv. destruct (decide (v = min_int)) as [->|Hne].
  - right. apply int_neg_min_int.
  - left. rewrite int_neg_exact by done. lia.
Qed.

End SignRule.

Lemma reconcile_values_int {K : Type} `{Countable K} (R S : list (InstInfo K)) :
  map_Forall (fun _ v => is_int v) (reconcile R S).
Proof. intros k v. apply reconcile_is_int. Qed.

(** C2, as the spec has it, fails at the least [int]: two active reservations
    of 9223372036854775807 and of 1 instances of one group, with nothing
    running, give the net count -9223372036854775808; Go's [-v] of it is
    -9223372036854775808 again, and that negative value, not the magnitude
    9223372036854775808, is printed among the unused reservations. *)
Lemma least_int_printed_negative :
  reconcile [] reserved_two_pow_63 !! m3_large = Some (-9223372036854775808)
  /\ unused_ec2 (reconcile [] reserved_two_pow_63)
     = [Println (String newline "Unused EC2 reservations:");
        Printf_ec2fmt "m3.large" "" (-9223372036854775808)]
  /\ (ec2row m3_large (- -9223372036854775808)
        ∉ unused_ec2 (reconcile [] reserved_two_pow_63))
  /\ ~ (forall k n, ec2row k n ∈ unused_ec2 (reconcile [] reserved_two_pow_63) -> 0 < n).
Proof.
  assert (Hout : unused_ec2 (reconcile [] reserved_two_pow_63)
     = [Println (String newline "Unused EC2 reservations:");
        Printf_ec2fmt "m3.large" "" (-9223372036854775808)])
    by (vm_compute; reflexivity).
  split; [vm_compute; reflexivity |]. split; [exact Hout |]. rewrite Hout. split.
  - intros Hin. apply elem_of_cons in Hin as [Hin|Hin]; [discriminate Hin |].
    apply list_elem_of_singleton in Hin. discriminate Hin.
  - intros Hpos. specialize (Hpos m3_large (-9223372036854775808)).
    assert (0 < -9223372036854775808); [| lia].
    apply Hpos. apply elem_of_cons. right. by apply list_elem_of_singleton.
Qed.

(** C2 (amended): for the final net-count map of the compute pass and of the
    database pass alike, and every key k with net count net: if net > 0 then k
    is printed among the on-demand instances with value net (and not among the
    unused reservations); if net < 0 then k is printed among the unused
    reservations with the value of Go's [-net] (and not among the on-demand
    instances), which is the positive magnitude -net for every net other than
    the least [int], and is the least [int] -2^63 itself for that one; if
    net = 0 then k is printed in neither.  So every value printed among the
    on-demand instances is positive, and every value printed among the unused
    reservations is positive or is -2^63. *)
Theorem classified_by_sign :
  (forall (R S : list ec2InstInfo) (k : ec2Inst) (net : Z),
      reconcile R S !! k = Some net ->
      (0 < net ->
         ec2row k net ∈ on_demand_ec2 (reconcile R S)
         /\ forall n, ec2row k n ∉ unused_ec2 (reconcile R S))
      /\ (net < 0 ->
         ec2row k (int_neg net) ∈ unused_ec2 (reconcile R S)
         /\ (forall n, ec2row k n ∉ on_demand_ec2 (reconcile R S))
         /\ (net <> min_int -> int_neg net = - net /\ 0 < int_neg net)
         /\ (net = min_int -> int_neg net = min_int))
      /\ (net = 0 ->
         forall n, (ec2row k n ∉ on_demand_ec2 (reconcile R S))
                   /\ (ec2row k n ∉ unused_ec2 (reconcile R S))))
  /\ (forall (R S : list ec2InstInfo) (k : ec2Inst) (n : Z),
        (ec2row k n ∈ on_demand_ec2 (reconcile R S) -> 0 < n)
        /\ (ec2row k n ∈ unused_ec2 (reconcile R S) -> 0 < n \/ n = min_int))
  /\ (forall (R S : list rdsInstInfo) (k : rdsInst) (net : Z),
      reconcile R S !! k = Some net ->
      (0 < net ->
         rdsrow k net ∈ on_demand_rds (reconcile R S)
         /\ forall n, rdsrow k n ∉ unused_rds (reconcile R S))
      /\ (net < 0 ->
         rdsrow k (int_neg net) ∈ unused_rds (reconcile R S)
         /\ (forall n, rdsrow k n ∉ on_demand_rds (reconcile R S))
         /\ (net <> min_int -> int_neg net = - net /\ 0 < int_neg net)
         /\ (net = min_int -> int_neg net = min_int))
      /\ (net = 0 ->
         forall n, (rdsrow k n ∉ on_demand_rds (reconcile R S))
                   /\ (rdsrow k n ∉ unused_rds (reconcile R S))))
  /\ (forall (R S : list rdsInstInfo) (k : rdsInst) (n : Z),
        (rdsrow k n ∈ on_demand_rds (reconcile R S) -> 0 < n)
        /\ (rdsrow k n ∈ unused_rds (reconcile R S) -> 0 < n \/ n = min_int)).
Proof.
  split; [| split; [| split]].
  - intros R S k net Hk. pose proof (reconcile_is_int R S k net Hk) as Hint.
    split; [| split].
    + intros Hnet.
      exact (positive_net_on_demand ec2row on_demand_ec2 unused_ec2
               on_demand_ec2_row unused_ec2_row _ k net Hk Hnet).
    + intros Hnet.
      destruct (negative_net_unused ec2row on_demand_ec2 unused_ec2
                  on_demand_ec2_row unused_ec2_row _ k net Hk Hnet) as [Hin Hout].
      split; [exact Hin |]. split; [exact Hout |]. split.
      * intros Hne. rewrite int_neg_exact by done. split; [done | lia].
      * intros ->. apply int_neg_min_int.
    + intros -> n.
      exact (zero_net_unlisted ec2row on_demand_ec2 unused_ec2
               on_demand_ec2_row unused_ec2_row _ k n Hk).
  - intros R S k n. split.
    + exact (on_demand_value_positive ec2row on_demand_ec2 on_demand_ec2_row _ k n).
    + exact (unused_value_positive ec2row unused_ec2 unused_ec2_row _ k n
               (reconcile_values_int R S)).
  - intros R S k net Hk. pose proof (reconcile_is_int R S k net Hk) as Hint.
    split; [| split].
    + intros Hnet.
      exact (positive_net_on_demand rdsrow on_demand_rds unused_rds
               on_demand_rds_row unused_rds_row _ k net Hk Hnet).
    + intros Hnet.
      destruct (negative_net_unused rdsrow on_demand_rds unused_rds
                  on_demand_rds_row unused_rds_row _ k net Hk Hnet) as [Hin Hout].
      split; [exact Hin |]. split; [exact Hout |]. split.
      * intros Hne. rewrite int_neg_exact by done. split; [done | lia].
      * intros ->. apply int_neg_min_int.
    + intros -> n.
      exact (zero_net_unlisted rdsrow on_demand_rds unused_rds
               on_demand_rds_row unused_rds_row _ k n Hk).
  - intros R S k n. split.
    + exact (on_demand_value_positive rdsrow on_demand_rds on_demand_rds_row _ k n).
    + exact (unused_value_positive rdsrow unused_rds unused_rds_row _ k n
               (reconcile_values_int R S)).
Qed.

Lemma classified_by_sign_witness :
  reconcile scenario_A_running scenario_A_reserved !! m3_large = Some 2
  /\ 0 < 2
  /\ ec2row m3_large 2 ∈ on_demand_ec2 (reconcile scenario_A_running scenario_A_reserved)
  /\ reconcile [] scenario_B_reserved !! m3_large_vpc = Some (-2)
  /\ -2 < 0
  /\ -2 <> min_int
  /\ ec2row m3_large_vpc (int_neg (-2)) ∈ unused_ec2 (reconcile [] scenario_B_reserved)
  /\ int_neg (-2) = - -2.
Proof.
  destruct classified_by_sign as [Hec2 _].
  assert (HA : reconcile scenario_A_running scenario_A_reserved !! m3_large = Some 2)
    by (vm_compute; reflexivity).
  assert (HB : reconcile [] scenario_B_reserved !! m3_large_vpc = Some (-2))
    by (vm_compute; reflexivity).
  assert (H2 : 0 < 2) by lia.
  assert (Hm2 : -2 < 0) by lia.
  assert (Hne : -2 <> min_int) by discriminate.
  split; [exact HA |]. split; [exact H2 |].
  split; [exact (proj1 (proj1 (Hec2 _ _ _ _ HA) H2)) |].
  split; [exact HB |]. split; [exact Hm2 |]. split; [exact Hne |].
  split; [exact (proj1 (proj1 (proj2 (Hec2 _ _ _ _ HB)) Hm2)) |].
  exact (proj1 (proj1 (proj2 (proj2 (proj1 (proj2 (Hec2 _ _ _ _ HB)) Hm2))) Hne)).
Defined.

(** ** Scenario C: a database instance and its reservation cancel *)

Lemma reconcile_cancels {K : Type} `{Countable K} (k : K) :
  reconcile [mk_InstInfo k 1 Active] [mk_InstInfo k 1 Active] = {[ k := 0 ]}.
Proof.
  unfold reconcile, add_active, sub_active, map_get. simpl.
  rewrite lookup_empty. simpl. rewrite lookup_insert_eq. simpl.
  rewrite insert_insert_eq. reflexivity.
Qed.

Lemma main_report {error : Type} (gw : Gateway error) (region : string)
    (runningEi reservedEi : list ec2InstInfo) (runningRi reservedRi : list rdsInstInfo) :
  getRunningEC2Instances gw region = inr runningEi ->
  getRunningRDSInstances gw region = inr runningRi ->
  getReservedEC2Instances gw region = inr reservedEi ->
  getReservedRDSInstances gw region = inr reservedRi ->
  main gw region =
    (on_demand_ec2 (reconcile runningEi reservedEi)
       ++ unused_ec2 (reconcile runningEi reservedEi)
       ++ on_demand_rds (reconcile runningRi reservedRi)
       ++ unused_rds (reconcile runningRi reservedRi),
     Return).
Proof. intros He Hr Hre Hrr. unfold main. by rewrite He, Hr, Hre, Hrr. Qed.

(** C3: a running-database record that normalizes to the group
    (db.m3.large, mysql, multi-AZ), always with count 1, and a
    reserved-database record in state "active" with instance count 1 that
    normalizes to the same group cancel: the group has net count 0 and both
    database buckets are empty, so that a pass over these two records alone
    prints nothing.  The engine of the running record and the product
    description of the reserved record both land in the [Product] component
    of the group. *)
Theorem scenario_C_cancels (error : Type) (region : string)
    (r : rds.DBInstance.t) (s : rds.ReservedDBInstance.t) :
  inst (rdsiTordsii r) = db_m3_large_mysql ->
  inst (rdsriTordsii s) = db_m3_large_mysql ->
  rds.ReservedDBInstance.State s = Some "active"%string ->
  rds.ReservedDBInstance.DBInstanceCount s = Some 1 ->
  Count (rdsiTordsii r) = 1
  /\ Product (inst (rdsiTordsii r)) = toStr (rds.DBInstance.Engine r)
  /\ Product (inst (rdsriTordsii s)) = toStr (rds.ReservedDBInstance.ProductDescription s)
  /\ reconcile [rdsiTordsii r] [rdsriTordsii s] !! db_m3_large_mysql = Some 0
  /\ on_demand_rds (reconcile [rdsiTordsii r] [rdsriTordsii s]) = []
  /\ unused_rds (reconcile [rdsiTordsii r] [rdsriTordsii s]) = []
  /\ main (database_only error [r] [s]) region = ([], Return).
Proof.
  intros Hr Hs Hstate Hcount.
  assert (Hrun : rdsiTordsii r = mk_InstInfo db_m3_large_mysql 1 Active).
  { unfold rdsiTordsii in *. simpl in Hr. by rewrite Hr. }
  assert (Hres : rdsriTordsii s = mk_InstInfo db_m3_large_mysql 1 Active).
  { unfold rdsriTordsii in *. simpl in Hs. by rewrite Hs, Hstate, Hcount. }
  assert (Hmap : reconcile [rdsiTordsii r] [rdsriTordsii s] = {[ db_m3_large_mysql := 0 ]}).
  { rewrite Hrun, Hres. apply reconcile_cancels. }
  assert (Hod : on_demand_rds (reconcile [rdsiTordsii r] [rdsriTordsii s]) = []).
  { rewrite Hmap. unfold on_demand_rds. by rewrite map_to_list_singleton. }
  assert (Hun : unused_rds (reconcile [rdsiTordsii r] [rdsriTordsii s]) = []).
  { rewrite Hmap. unfold unused_rds. by rewrite map_to_list_singleton. }
  split; [reflexivity |]. split; [reflexivity |]. split; [reflexivity |].
  split; [by rewrite Hmap, lookup_singleton_eq |].
  split; [exact Hod |]. split; [exact Hun |].
  rewrite (main_report _ region [] [] [rdsiTordsii r] [rdsriTordsii s])
    by reflexivity.
  by rewrite Hod, Hun.
Qed.

Lemma scenario_C_cancels_witness :
  inst (rdsiTordsii scenario_C_running) = db_m3_large_mysql
  /\ inst (rdsriTordsii scenario_C_reserved) = db_m3_large_mysql
  /\ on_demand_rds (reconcile [rdsiTordsii scenario_C_running]
                              [rdsriTordsii scenario_C_reserved]) = []
  /\ unused_rds (reconcile [rdsiTordsii scenario_C_running]
                           [rdsriTordsii scenario_C_reserved]) = []
  /\ main (database_only string [scenario_C_running] [scenario_C_reserved])
          "us-west-1" = ([], Return).
Proof.
  pose proof (scenario_C_cancels string "us-west-1"
                scenario_C_running scenario_C_reserved
                eq_refl eq_refl eq_refl eq_refl) as (_ & _ & _ & _ & Hod & Hun & Hmain).
  repeat split; assumption.
Defined.

(** C4: whatever the net-count map, a group is never printed both among the
    on-demand instances and among the unused reservations made from it, with
    whatever values; this holds for the compute map and for the database
    map. *)
Theorem buckets_mutually_exclusive :
  (forall (ei : gmap ec2Inst Z) (k : ec2Inst) (n n' : Z),
      ~ (ec2row k n ∈ on_demand_ec2 ei /\ ec2row k n' ∈ unused_ec2 ei))
  /\ (forall (ri : gmap rdsInst Z) (k : rdsInst) (n n' : Z),
      ~ (rdsrow k n ∈ on_demand_rds ri /\ rdsrow k n' ∈ unused_rds ri)).
Proof.
  split.
  - intros ei k n n'.
    exact (buckets_disjoint ec2row on_demand_ec2 unused_ec2
             on_demand_ec2_row unused_ec2_row ei k n n').
  - intros ri k n n'.
    exact (buckets_disjoint rdsrow on_demand_rds unused_rds
             on_demand_rds_row unused_rds_row ri k n n').
Qed.

(** ** Order of the records *)

(** C5: the net-count map made from the running records R and the reserved
    records S is the same map for every reordering of R and every reordering
    of S, for compute and for database records alike. *)
Theorem reconcile_order_irrelevant :
  (forall (R R' S S' : list ec2InstInfo),
      R ≡ₚ R' -> S ≡ₚ S' -> reconcile R S = reconcile R' S')
  /\ (forall (R R' S S' : list rdsInstInfo),
      R ≡ₚ R' -> S ≡ₚ S' -> reconcile R S = reconcile R' S').
Proof. split; intros R R' S S'; apply reconcile_perm. Qed.

Lemma reconcile_order_irrelevant_witness :
  running_in_order ≡ₚ running_swapped
  /\ reserved_in_order ≡ₚ reserved_swapped
  /\ reconcile running_in_order reserved_in_order
     = reconcile running_swapped reserved_swapped.
Proof.
  assert (HR : running_in_order ≡ₚ running_swapped) by apply perm_swap.
  assert (HS : reserved_in_order ≡ₚ reserved_swapped) by apply perm_swap.
  split; [exact HR |]. split; [exact HS |].
  exact (proj1 reconcile_order_irrelevant _ _ _ _ HR HS).
Defined.

(** ** Normalization *)

Lemma prefix_append (p s : string) :
  String.prefix p s = true <-> exists t, s = p +:+ t.
Proof.
  revert s. induction p as [|a p IH]; intros s.
  - destruct s; simpl; split; eauto.
  - destruct s as [|b s]; simpl.
    + split; [done | intros [t Ht]; discriminate Ht].
    + destruct (Ascii.ascii_dec a b) as [->|Hne].
      * rewrite IH. split; intros [t Ht]; exists t.
        -- by rewrite Ht.
        -- by injection Ht.
      * split; [done |]. intros [t Ht]. injection Ht as -> _. by destruct Hne.
Qed.

Lemma Contains_unfold (s substr : string) :
  Contains s substr =
    if String.prefix substr s then true
    else match s with
         | EmptyString => false
         | String _ s' => Contains s' substr
         end.
Proof. by destruct s. Qed.

Lemma Contains_spec (s substr : string) :
  Contains s substr = true <-> exists pre post, s = pre +:+ substr +:+ post.
Proof.
  induction s as [|a s IH]; rewrite Contains_unfold.
  - destruct (String.prefix substr "") eqn:Hp.
    + split; [intros _ | done]. apply prefix_append in Hp as [t Ht].
      by exists ""%string, t.
    + split; [done |]. intros (pre & post & Hs).
      destruct pre; [| discriminate Hs]. simpl in Hs.
      assert (String.prefix substr "" = true) as Hp'
        by (apply prefix_append; eauto).
      congruence.
  - destruct (String.prefix substr (String a s)) eqn:Hp.
    + split; [intros _ | done]. apply prefix_append in Hp as [t Ht].
      by exists ""%string, t.
    + rewrite IH. split.
      * intros (pre & post & ->). by exists (String a pre), post.
      * intros (pre & post & Hs). destruct pre as [|b pre]; simpl in Hs.
        -- assert (String.prefix substr (String a s) = true) as Hp'
             by (apply prefix_append; eauto).
           congruence.
        -- injection Hs as -> ->. by exists pre, post.
Qed.

Lemma not_Active_Unknown (s : state) : s <> Active -> s = UnknownState.
Proof. destruct s; [done | by intros []]. Qed.

(** C6: for every reserved-compute record, the normalized count is the
    instance-count field, 0 when the field is absent; the state is Active
    exactly when the state field is the string "active" (and is Unknown
    otherwise); the group is in a VPC exactly when the product description
    contains "Amazon VPC". *)
Theorem reserved_compute_normalized (r : ec2.ReservedInstances.t) :
  (ec2.ReservedInstances.InstanceCount r = None -> Count (ec2riToec2ii r) = 0)
  /\ (forall n, ec2.ReservedInstances.InstanceCount r = Some n ->
                Count (ec2riToec2ii r) = n)
  /\ (State (ec2riToec2ii r) = Active <->
        ec2.ReservedInstances.State r = Some "active"%string)
  /\ (State (ec2riToec2ii r) <> Active -> State (ec2riToec2ii r) = UnknownState)
  /\ (VPC (inst (ec2riToec2ii r)) = true <->
        exists pre post,
          ec2.ReservedInstances.ProductDescription r
            = Some (pre +:+ "Amazon VPC" +:+ post)%string).
Proof.
  destruct r as [ty cnt descr st]. unfold ec2riToec2ii. simpl.
  split; [by intros -> |]. split; [by intros n -> |]. split; [| split].
  - destruct (decide (toStr st = "active"%string)) as [Hst|Hst].
    + split; [intros _ | done]. destruct st as [st|]; [| discriminate Hst].
      simpl in Hst. by rewrite Hst.
    + split; [done |]. intros ->. by destruct Hst.
  - apply not_Active_Unknown.
  - rewrite Contains_spec. destruct descr as [descr|]; simpl.
    + split; intros (pre & post & Hd); exists pre, post; congruence.
    + split; [| by intros (? & ? & ?)]. intros (pre & post & Hd).
      destruct pre; discriminate Hd.
Qed.

(** C7: for every running-compute record, the normalized count is 1, and the
    state is Active exactly when the record has a state whose name is one of
    running, pending, stopping, shutting-down, stopped; with any other name,
    no name, or no state at all, the state is Unknown. *)
Theorem running_compute_normalized (r : ec2.Instance.t) :
  Count (ec2iToec2ii r) = 1
  /\ (State (ec2iToec2ii r) = Active <->
        exists st name,
          ec2.Instance.State r = Some st
          /\ ec2.InstanceState.Name st = Some name
          /\ name ∈ ["running"; "pending"; "stopping"; "shutting-down"; "stopped"]%string)
  /\ (State (ec2iToec2ii r) <> Active -> State (ec2iToec2ii r) = UnknownState)
  /\ (ec2.Instance.State r = None -> State (ec2iToec2ii r) = UnknownState).
Proof.
  destruct r as [ty vpc st]. unfold ec2iToec2ii. simpl.
  split; [done |]. split; [| split].
  - destruct st as [[name]|]; simpl.
    + unfold ec2.InstanceStateNameRunning, ec2.InstanceStateNameStopped,
        ec2.InstanceStateNameStopping, ec2.InstanceStateNameShuttingDown,
        ec2.InstanceStateNamePending.
      split.
      * intros Hact. exists {| ec2.InstanceState.Name := name |}, (toStr name).
        split; [done |]. split.
        -- destruct name; [done |]. simpl in Hact. by repeat case_decide.
        -- rewrite !elem_of_cons.
           repeat case_decide; first [discriminate Hact | tauto].
      * intros (st & nm & [= <-] & Hname & Hin). simpl in Hname. subst name.
        simpl. rewrite !elem_of_cons in Hin.
        destruct Hin as [->|[->|[->|[->|[->|[]%not_elem_of_nil]]]]]; done.
    + split; [done |]. by intros (st & nm & [=] & _).
  - apply not_Active_Unknown.
  - by intros ->.
Qed.

(** ** Records that are not Active *)

Section Skipped.
Context {K : Type} `{Countable K}.
Implicit Types (m : gmap K Z) (ii : InstInfo K) (R S : list (InstInfo K)).

Lemma reconcile_snoc_reserved R S ii :
  reconcile R (S ++ [ii]) = sub_active (reconcile R S) ii.
Proof. unfold reconcile. by rewrite foldl_app. Qed.

Lemma reconcile_skip_running R1 R2 S ii :
  State ii <> Active -> reconcile (R1 ++ ii :: R2) S = reconcile (R1 ++ R2) S.
Proof.
  intros Hs. unfold reconcile. rewrite !foldl_app. simpl.
  by rewrite add_active_skip.
Qed.

Lemma reconcile_skip_reserved R S1 S2 ii :
  State ii <> Active -> reconcile R (S1 ++ ii :: S2) = reconcile R (S1 ++ S2).
Proof.
  intros Hs. unfold reconcile. rewrite !foldl_app. simpl.
  by rewrite sub_active_skip.
Qed.

Lemma skipped ii :
  State ii <> Active ->
  (forall m, add_active m ii = m /\ sub_active m ii = m)
  /\ (forall R1 R2 S, reconcile (R1 ++ ii :: R2) S = reconcile (R1 ++ R2) S)
  /\ (forall R S1 S2, reconcile R (S1 ++ ii :: S2) = reconcile R (S1 ++ S2)).
Proof.
  intros Hs. split; [| split].
  - intros m. split; [by apply add_active_skip | by apply sub_active_skip].
  - intros R1 R2 S. by apply reconcile_skip_running.
  - intros R S1 S2. by apply reconcile_skip_reserved.
Qed.

(** An Active reserved record of count 0 changes no entry other than to 0. *)
Lemma zero_count_lookup R S ii k v :
  State ii = Active -> Count ii = 0 -> v <> 0 ->
  reconcile R (S ++ [ii]) !! k = Some v <-> reconcile R S !! k = Some v.
Proof.
  intros Hs Hc Hv. rewrite !reconcile_lookup. unfold net_lookup, net_of.
  rewrite touched_app, active_total_app. cbn [active_total touched existsb].
  rewrite Hc.
  replace (active_total k S + ((if touches k ii then 0 else 0) + 0))
    with (active_total k S) by (destruct (touches k ii); lia).
  destruct (touched k R) eqn:HR, (touched k S) eqn:HS; simpl; try done.
  destruct (touches k ii); simpl; [| done].
  rewrite !untouched_total by done. split; [| done].
  intros [= <-]. by destruct Hv.
Qed.

End Skipped.

(** C8: a record whose state is not Active leaves the map it is processed
    against as it is, in the loop of the running records and in the loop of
    the reserved records, for compute and for database records: no value
    changes and no key is added, and the pass gives the same map as without
    the record.  In particular a running compute record in state "terminated"
    normalizes to the Unknown state; whatever count the normalized record is
    given, the pass gives the same map as without it, and alone it leaves the
    map empty and both compute buckets empty. *)
Theorem inactive_records_skipped :
  (forall (ii : ec2InstInfo), State ii <> Active ->
      (forall m, add_active m ii = m /\ sub_active m ii = m)
      /\ (forall R1 R2 S, reconcile (R1 ++ ii :: R2) S = reconcile (R1 ++ R2) S)
      /\ (forall R S1 S2, reconcile R (S1 ++ ii :: S2) = reconcile R (S1 ++ S2)))
  /\ (forall (ii : rdsInstInfo), State ii <> Active ->
      (forall m, add_active m ii = m /\ sub_active m ii = m)
      /\ (forall R1 R2 S, reconcile (R1 ++ ii :: R2) S = reconcile (R1 ++ R2) S)
      /\ (forall R S1 S2, reconcile R (S1 ++ ii :: S2) = reconcile R (S1 ++ S2)))
  /\ (forall (r : ec2.Instance.t) (st : ec2.InstanceState.t) (count : Z),
      ec2.Instance.State r = Some st ->
      ec2.InstanceState.Name st = Some "terminated"%string ->
      State (ec2iToec2ii r) = UnknownState
      /\ (forall m, add_active m (mk_InstInfo (inst (ec2iToec2ii r)) count
                                              (State (ec2iToec2ii r))) = m)
      /\ (forall R1 R2 S,
            reconcile (R1 ++ mk_InstInfo (inst (ec2iToec2ii r)) count
                                         (State (ec2iToec2ii r)) :: R2) S
            = reconcile (R1 ++ R2) S)
      /\ reconcile [mk_InstInfo (inst (ec2iToec2ii r)) count
                                (State (ec2iToec2ii r))] [] = ∅
      /\ on_demand_ec2 (reconcile [mk_InstInfo (inst (ec2iToec2ii r)) count
                                               (State (ec2iToec2ii r))] []) = []
      /\ unused_ec2 (reconcile [mk_InstInfo (inst (ec2iToec2ii r)) count
                                            (State (ec2iToec2ii r))] []) = []).
Proof.
  split; [exact skipped |]. split; [exact skipped |].
  intros r st count Hst Hname.
  assert (Hu : State (ec2iToec2ii r) = UnknownState).
  { unfold ec2iToec2ii. simpl. by rewrite Hst, Hname. }
  rewrite Hu.
  assert (Hs : State (mk_InstInfo (inst (ec2iToec2ii r)) count UnknownState) <> Active)
    by done.
  split; [done |]. split; [| split; [| split; [| split]]].
  - intros m. by apply add_active_skip.
  - intros R1 R2 S. by apply reconcile_skip_running.
  - reflexivity.
  - reflexivity.
  - reflexivity.
Qed.

(** ** Failing listings and defective records *)

(** C9: when one of the four listings fails, [main] ends in [log.Fatal] with
    an error that is exactly the error a failed listing returned (the first
    to fail in the order the program calls them), and nothing has been
    printed; when the four listings succeed, [main] returns normally whatever
    the records hold, since normalization is total and reads an absent string
    as the empty string, an absent integer as 0 and an absent boolean as
    false. *)
Theorem listing_failure_is_fatal (error : Type) (gw : Gateway error) (region : string) :
  ((exists err, DescribeInstances gw region = inl err
                \/ DescribeDBInstances gw region = inl err
                \/ DescribeReservedInstances gw region = inl err
                \/ DescribeReservedDBInstances gw region = inl err) ->
   exists err, main gw region = ([], Fatal err)
               /\ (DescribeInstances gw region = inl err
                   \/ DescribeDBInstances gw region = inl err
                   \/ DescribeReservedInstances gw region = inl err
                   \/ DescribeReservedDBInstances gw region = inl err))
  /\ (forall err, DescribeInstances gw region = inl err ->
                  main gw region = ([], Fatal err))
  /\ (forall a err, DescribeInstances gw region = inr a ->
                    DescribeDBInstances gw region = inl err ->
                    main gw region = ([], Fatal err))
  /\ (forall a b err, DescribeInstances gw region = inr a ->
                      DescribeDBInstances gw region = inr b ->
                      DescribeReservedInstances gw region = inl err ->
                      main gw region = ([], Fatal err))
  /\ (forall a b c err, DescribeInstances gw region = inr a ->
                        DescribeDBInstances gw region = inr b ->
                        DescribeReservedInstances gw region = inr c ->
                        DescribeReservedDBInstances gw region = inl err ->
                        main gw region = ([], Fatal err))
  /\ (forall a b c d, DescribeInstances gw region = inr a ->
                      DescribeDBInstances gw region = inr b ->
                      DescribeReservedInstances gw region = inr c ->
                      DescribeReservedDBInstances gw region = inr d ->
                      exists out, main gw region = (out, Return))
  /\ toStr None = ""%string /\ toInt None = 0 /\ toBool None = false
  /\ ec2iToec2ii (ec2.Instance.mk None None None)
     = mk_InstInfo (mk_ec2Inst "" false) 1 UnknownState
  /\ ec2riToec2ii (ec2.ReservedInstances.mk None None None None)
     = mk_InstInfo (mk_ec2Inst "" false) 0 UnknownState
  /\ rdsiTordsii (rds.DBInstance.mk None None None)
     = mk_InstInfo (mk_rdsInst "" "" false) 1 Active
  /\ rdsriTordsii (rds.ReservedDBInstance.mk None None None None None)
     = mk_InstInfo (mk_rdsInst "" "" false) 0 UnknownState.
Proof.
  assert (H1 : forall err, DescribeInstances gw region = inl err ->
                 main gw region = ([], Fatal err)).
  { intros err He. unfold main, getRunningEC2Instances. by rewrite He. }
  assert (H2 : forall a err, DescribeInstances gw region = inr a ->
                 DescribeDBInstances gw region = inl err ->
                 main gw region = ([], Fatal err)).
  { intros a err Ha He.
    unfold main, getRunningEC2Instances, getRunningRDSInstances.
    by rewrite Ha, He. }
  assert (H3 : forall a b err, DescribeInstances gw region = inr a ->
                 DescribeDBInstances gw region = inr b ->
                 DescribeReservedInstances gw region = inl err ->
                 main gw region = ([], Fatal err)).
  { intros a b err Ha Hb He.
    unfold main, getRunningEC2Instances, getRunningRDSInstances,
      getReservedEC2Instances.
    by rewrite Ha, Hb, He. }
  assert (H4 : forall a b c err, DescribeInstances gw region = inr a ->
                 DescribeDBInstances gw region = inr b ->
                 DescribeReservedInstances gw region = inr c ->
                 DescribeReservedDBInstances gw region = inl err ->
                 main gw region = ([], Fatal err)).
  { intros a b c err Ha Hb Hc He.
    unfold main, getRunningEC2Instances, getRunningRDSInstances,
      getReservedEC2Instances, getReservedRDSInstances.
    by rewrite Ha, Hb, Hc, He. }
  split; [| split; [exact H1 | split; [exact H2 | split; [exact H3 |
    split; [exact H4 | split; [| by repeat split]]]]]].
  - intros (err & Herr).
    destruct (DescribeInstances gw region) as [e1|a] eqn:E1;
      [exists e1; split; [by apply H1 | by left] |].
    destruct (DescribeDBInstances gw region) as [e2|b] eqn:E2;
      [exists e2; split; [by apply (H2 a) | by right; left] |].
    destruct (DescribeReservedInstances gw region) as [e3|c] eqn:E3;
      [exists e3; split; [by apply (H3 a b) | by right; right; left] |].
    destruct (DescribeReservedDBInstances gw region) as [e4|d] eqn:E4;
      [exists e4; split; [by apply (H4 a b c) | by right; right; right] |].
    destruct Herr as [Herr|[Herr|[Herr|Herr]]]; discriminate Herr.
  - intros a b c d Ha Hb Hc Hd.
    unfold main, getRunningEC2Instances, getRunningRDSInstances,
      getReservedEC2Instances, getReservedRDSInstances.
    rewrite Ha, Hb, Hc, Hd. eauto.
Qed.

(** ** An active reservation without a count *)

Section ZeroCount.
Context {K : Type} `{Countable K}.
Variables (row : K -> Z -> line) (on_demand unused : gmap K Z -> list line).
Hypothesis on_demand_row : forall m k n,
  row k n ∈ on_demand m <-> m !! k = Some n /\ 1 <= n.
Hypothesis unused_row : forall m k n,
  row k n ∈ unused m <-> exists v, m !! k = Some v /\ v < 0 /\ n = int_neg v.
Hypothesis on_demand_same : forall m m',
  (forall k v, 1 <= v -> m' !! k = Some v <-> m !! k = Some v) ->
  forall x, x ∈ on_demand m' <-> x ∈ on_demand m.
Hypothesis unused_same : forall m m',
  (forall k v, v < 0 -> m' !! k = Some v <-> m !! k = Some v) ->
  forall x, x ∈ unused m' <-> x ∈ unused m.

Lemma zero_count_unreported (ii : InstInfo K) :
  State ii = Active -> Count ii = 0 ->
  (forall m : gmap K Z,
      m !! inst ii = None ->
      sub_active m ii !! inst ii = Some 0
      /\ forall n, (row (inst ii) n ∉ on_demand (sub_active m ii))
                   /\ (row (inst ii) n ∉ unused (sub_active m ii)))
  /\ (forall R S : list (InstInfo K),
        reconcile R (S ++ [ii]) = sub_active (reconcile R S) ii
        /\ is_Some (reconcile R (S ++ [ii]) !! inst ii)
        /\ forall x,
             (x ∈ on_demand (reconcile R (S ++ [ii])) <-> x ∈ on_demand (reconcile R S))
             /\ (x ∈ unused (reconcile R (S ++ [ii])) <-> x ∈ unused (reconcile R S))).
Proof.
  intros Hs Hc.
  assert (Htouch : touches (inst ii) ii = true) by (apply touches_true; by split).
  split.
  - intros m Hm.
    assert (Hk : sub_active m ii !! inst ii = Some 0).
    { rewrite sub_active_lookup, Htouch, Hc. unfold map_get. by rewrite Hm. }
    split; [exact Hk |]. intros n.
    exact (zero_net_unlisted row on_demand unused on_demand_row unused_row _ _ n Hk).
  - intros R S. split; [apply reconcile_snoc_reserved |]. split.
    + rewrite reconcile_snoc_reserved, sub_active_lookup, Htouch. eauto.
    + intros x. split.
      * apply on_demand_same. intros k v Hv.
        apply zero_count_lookup; [done | done | lia].
      * apply unused_same. intros k v Hv.
        apply zero_count_lookup; [done | done | lia].
Qed.

End ZeroCount.

(** C10: a reserved record, compute or database, in state "active" whose
    instance count is absent normalizes to an Active record of count 0.
    Processed against a map without its group, it adds the group with value
    0 (where a record that is not Active adds nothing); processed after any
    records, its group is in the map.  That group, when it was absent before,
    is printed in neither bucket of its kind, and in every case the two
    printing loops print the same lines as without the record. *)
Theorem zero_count_reservation_unreported
    (r : ec2.ReservedInstances.t) (s : rds.ReservedDBInstance.t) :
  ec2.ReservedInstances.State r = Some "active"%string ->
  ec2.ReservedInstances.InstanceCount r = None ->
  rds.ReservedDBInstance.State s = Some "active"%string ->
  rds.ReservedDBInstance.DBInstanceCount s = None ->
  (Count (ec2riToec2ii r) = 0
   /\ State (ec2riToec2ii r) = Active
   /\ (forall m : gmap ec2Inst Z,
         m !! inst (ec2riToec2ii r) = None ->
         sub_active m (ec2riToec2ii r) !! inst (ec2riToec2ii r) = Some 0
         /\ forall n,
              (ec2row (inst (ec2riToec2ii r)) n
                 ∉ on_demand_ec2 (sub_active m (ec2riToec2ii r)))
              /\ (ec2row (inst (ec2riToec2ii r)) n
                    ∉ unused_ec2 (sub_active m (ec2riToec2ii r))))
   /\ (forall R S : list ec2InstInfo,
         reconcile R (S ++ [ec2riToec2ii r])
           = sub_active (reconcile R S) (ec2riToec2ii r)
         /\ is_Some (reconcile R (S ++ [ec2riToec2ii r]) !! inst (ec2riToec2ii r))
         /\ forall x,
              (x ∈ on_demand_ec2 (reconcile R (S ++ [ec2riToec2ii r]))
                 <-> x ∈ on_demand_ec2 (reconcile R S))
              /\ (x ∈ unused_ec2 (reconcile R (S ++ [ec2riToec2ii r]))
                    <-> x ∈ unused_ec2 (reconcile R S))))
  /\
  (Count (rdsriTordsii s) = 0
   /\ State (rdsriTordsii s) = Active
   /\ (forall m : gmap rdsInst Z,
         m !! inst (rdsriTordsii s) = None ->
         sub_active m (rdsriTordsii s) !! inst (rdsriTordsii s) = Some 0
         /\ forall n,
              (rdsrow (inst (rdsriTordsii s)) n
                 ∉ on_demand_rds (sub_active m (rdsriTordsii s)))
              /\ (rdsrow (inst (rdsriTordsii s)) n
                    ∉ unused_rds (sub_active m (rdsriTordsii s))))
   /\ (forall R S : list rdsInstInfo,
         reconcile R (S ++ [rdsriTordsii s])
           = sub_active (reconcile R S) (rdsriTordsii s)
         /\ is_Some (reconcile R (S ++ [rdsriTordsii s]) !! inst (rdsriTordsii s))
         /\ forall x,
              (x ∈ on_demand_rds (reconcile R (S ++ [rdsriTordsii s]))
                 <-> x ∈ on_demand_rds (reconcile R S))
              /\ (x ∈ unused_rds (reconcile R (S ++ [rdsriTordsii s]))
                    <-> x ∈ unused_rds (reconcile R S)))).
Proof.
  intros Hrs Hrc Hss Hsc.
  assert (Hc : Count (ec2riToec2ii r) = 0)
    by (unfold ec2riToec2ii; simpl; by rewrite Hrc).
  assert (Hs : State (ec2riToec2ii r) = Active)
    by (unfold ec2riToec2ii; simpl; by rewrite Hrs).
  assert (Hc' : Count (rdsriTordsii s) = 0)
    by (unfold rdsriTordsii; simpl; by rewrite Hsc).
  assert (Hs' : State (rdsriTordsii s) = Active)
    by (unfold rdsriTordsii; simpl; by rewrite Hss).
  split; (split; [done |]; split; [done |]).
  - apply (zero_count_unreported ec2row on_demand_ec2 unused_ec2
             on_demand_ec2_row unused_ec2_row); try done.
    + intros m m'. apply on_demand_same_lines.
    + intros m m'. apply unused_same_lines.
  - apply (zero_count_unreported rdsrow on_demand_rds unused_rds
             on_demand_rds_row unused_rds_row); try done.
    + intros m m'. apply on_demand_same_lines.
    + intros m m'. apply unused_same_lines.
Qed.

Lemma zero_count_reservation_unreported_witness :
  ec2.ReservedInstances.State reserved_without_count = Some "active"%string
  /\ ec2.ReservedInstances.InstanceCount reserved_without_count = None
  /\ rds.ReservedDBInstance.State db_reserved_without_count = Some "active"%string
  /\ rds.ReservedDBInstance.DBInstanceCount db_reserved_without_count = None
  /\ sub_active ∅ (ec2riToec2ii reserved_without_count) !! m3_large = Some 0
  /\ (ec2row m3_large 0 ∉ on_demand_ec2 (sub_active ∅ (ec2riToec2ii reserved_without_count)))
  /\ (ec2row m3_large 0 ∉ unused_ec2 (sub_active ∅ (ec2riToec2ii reserved_without_count)))
  /\ Count (rdsriTordsii db_reserved_without_count) = 0.
Proof.
  pose proof (zero_count_reservation_unreported
                reserved_without_count db_reserved_without_count
                eq_refl eq_refl eq_refl eq_refl)
    as [(_ & _ & Hstep & _) (Hdb & _)].
  assert (Hnone : (∅ : gmap ec2Inst Z) !! inst (ec2riToec2ii reserved_without_count)
                  = None) by (vm_compute; reflexivity).
  destruct (Hstep ∅ Hnone) as [Hk Hrows].
  split; [reflexivity |]. split; [reflexivity |].
  split; [reflexivity |]. split; [reflexivity |]. split; [exact Hk |].
  split; [exact (proj1 (Hrows 0)) |]. split; [exact (proj2 (Hrows 0)) |].
  exact Hdb.
Defined.

(** * Further properties of the program *)

(** ** The printed sections *)

Section SectionShape.
Context {K : Type}.
Variables (header : string) (row : K -> Z -> line).

Lemma range_on_demand_rows (entries : list (K * Z)) :
  range_on_demand header row true entries
  = map (fun e => row e.1 e.2) (positive_entries entries).
Proof.
  unfold positive_entries.
  induction entries as [|[k v] rest IH]; simpl; [done |].
  rewrite filter_cons. simpl.
  destruct (Z.ltb_spec v 1) as [Hv|Hv].
  - rewrite decide_False by lia. exact IH.
  - rewrite decide_True by lia. simpl. by rewrite IH.
Qed.

Lemma range_on_demand_section (entries : list (K * Z)) :
  range_on_demand header row false entries
  = section_of header (map (fun e => row e.1 e.2) (positive_entries entries)).
Proof.
  unfold positive_entries.
  induction entries as [|[k v] rest IH]; simpl; [done |].
  rewrite filter_cons. simpl.
  destruct (Z.ltb_spec v 1) as [Hv|Hv].
  - rewrite decide_False by lia. exact IH.
  - rewrite decide_True by lia. simpl. by rewrite range_on_demand_rows.
Qed.

Lemma range_unused_rows (entries : list (K * Z)) :
  range_unused header row true entries
  = map (fun e => row e.1 (int_neg e.2)) (negative_entries entries).
Proof.
  unfold negative_entries.
  induction entries as [|[k v] rest IH]; simpl; [done |].
  rewrite filter_cons. simpl.
  destruct (Z.geb_spec v 0) as [Hv|Hv].
  - rewrite decide_False by lia. exact IH.
  - rewrite decide_True by lia. simpl. by rewrite IH.
Qed.

Lemma range_unused_section (entries : list (K * Z)) :
  range_unused header row false entries
  = section_of header (map (fun e => row e.1 (int_neg e.2)) (negative_entries entries)).
Proof.
  unfold negative_entries.
  induction entries as [|[k v] rest IH]; simpl; [done |].
  rewrite filter_cons. simpl.
  destruct (Z.geb_spec v 0) as [Hv|Hv].
  - rewrite decide_False by lia. exact IH.
  - rewrite decide_True by lia. simpl. by rewrite range_unused_rows.
Qed.

End SectionShape.

(** X1: each on-demand loop of [main] prints nothing at all when no entry of
    its map is positive; otherwise it prints its header exactly once, as the
    first line, followed by one row per positive entry, in the order of the
    iteration, with the entry's value. *)
Theorem on_demand_sections_shape (ei : gmap ec2Inst Z) (ri : gmap rdsInst Z) :
  on_demand_ec2 ei
  = section_of (String newline "On-demand EC2 instances:")
      (map (fun e => ec2row e.1 e.2) (positive_entries (map_to_list ei)))
  /\ on_demand_rds ri
     = section_of (String newline "On-demand RDS instances:")
         (map (fun e => rdsrow e.1 e.2) (positive_entries (map_to_list ri))).
Proof. split; apply range_on_demand_section. Qed.

(** X2: each loop of the unused reservations prints nothing at all when no
    entry of its map is negative; otherwise it prints its header exactly
    once, as the first line, followed by one row per negative entry, in the
    order of the iteration, with Go's [-v] of the entry's value. *)
Theorem unused_sections_shape (ei : gmap ec2Inst Z) (ri : gmap rdsInst Z) :
  unused_ec2 ei
  = section_of (String newline "Unused EC2 reservations:")
      (map (fun e => ec2row e.1 (int_neg e.2)) (negative_entries (map_to_list ei)))
  /\ unused_rds ri
     = section_of (String newline "Unused RDS reservation:")
         (map (fun e => rdsrow e.1 (int_neg e.2)) (negative_entries (map_to_list ri))).
Proof. split; apply range_unused_section. Qed.

Section SectionNoDup.
Context {K : Type} `{Countable K}.
Variables (header : string) (row : K -> Z -> line).
Hypothesis row_inj : forall k v k' v', row k v = row k' v' -> k = k' /\ v = v'.
Hypothesis row_not_header : forall k v s, row k v <> Println s.





End SectionNoDup.


(** ** The keys and the composition of net-count maps *)

Lemma wrap_add_r (a b : Z) : wrap (a + wrap b) = wrap (a + b).
Proof.
  rewrite (Z.add_comm a (wrap b)), wrap_add_l. apply (f_equal wrap). lia.
Qed.

Lemma touched_exists {K : Type} `{Countable K} (k : K) (l : list (InstInfo K)) :
  touched k l = true <-> exists ii, ii ∈ l /\ State ii = Active /\ inst ii = k.
Proof.
  unfold touched. rewrite existsb_exists. split.
  - intros (ii & Hin & Ht). exists ii. rewrite list_elem_of_In.
    split; [done |]. by apply touches_true.
  - intros (ii & Hin & Hs & Hk). exists ii. rewrite <- list_elem_of_In.
    split; [done |]. by apply touches_true.
Qed.

Lemma reconcile_is_Some {K : Type} `{Countable K} (R S : list (InstInfo K)) (k : K) :
  is_Some (reconcile R S !! k) <-> touched k R || touched k S = true.
Proof.
  rewrite reconcile_lookup. unfold net_lookup.
  destruct (touched k R || touched k S); split; done.
Qed.

(** X4: a group is a key of the net-count map made from the running records
    R and the reserved records S exactly when some Active record of R or of S
    belongs to it: groups that only records in another state name, and groups
    no record names, never enter the map, while an Active record enters its
    group even with count 0. *)
Theorem net_count_keys {K : Type} `{Countable K}
    (R S : list (InstInfo K)) (k : K) :
  is_Some (reconcile R S !! k) <->
    exists ii, ii ∈ R ++ S /\ State ii = Active /\ inst ii = k.
Proof.
  rewrite reconcile_is_Some, <- touched_app. apply touched_exists.
Qed.

(** X5: accumulating two batches of records into one map gives, at every
    key, Go's sum of the net counts of the two batches accumulated apart, and
    its keys are the keys of the one or of the other. *)
Theorem reconcile_batches {K : Type} `{Countable K}
    (R1 R2 S1 S2 : list (InstInfo K)) (k : K) :
  map_get (reconcile (R1 ++ R2) (S1 ++ S2)) k
  = int_add (map_get (reconcile R1 S1) k) (map_get (reconcile R2 S2) k)
  /\ (is_Some (reconcile (R1 ++ R2) (S1 ++ S2) !! k) <->
        is_Some (reconcile R1 S1 !! k) \/ is_Some (reconcile R2 S2 !! k)).
Proof.
  split.
  - rewrite !net_equation_reconcile. unfold int_add, net_of.
    rewrite wrap_add_l, wrap_add_r, !active_total_app.
    apply (f_equal wrap). lia.
  - rewrite !reconcile_is_Some, !touched_app.
    destruct (touched k R1), (touched k R2), (touched k S1), (touched k S2);
      simpl; tauto.
Qed.

(** ** Empty sections *)

Section EmptySections.
Context {K : Type}.
Variables (header : string) (row : K -> Z -> line).

Lemma range_on_demand_nil (entries : list (K * Z)) : forall headerPrinted,
  range_on_demand header row headerPrinted entries = []
  <-> Forall (fun e => e.2 < 1) entries.
Proof.
  induction entries as [|[k v] rest IH]; intros hp; simpl.
  - split; [constructor | done].
  - rewrite Forall_cons. simpl. destruct (Z.ltb_spec v 1) as [Hv|Hv].
    + rewrite IH. tauto.
    + split; [| lia]. by destruct hp.
Qed.

Lemma range_unused_nil (entries : list (K * Z)) : forall headerPrinted,
  range_unused header row headerPrinted entries = []
  <-> Forall (fun e => 0 <= e.2) entries.
Proof.
  induction entries as [|[k v] rest IH]; intros hp; simpl.
  - split; [constructor | done].
  - rewrite Forall_cons. simpl. destruct (Z.geb_spec v 0) as [Hv|Hv].
    + rewrite IH. split; [intros ?; split; [lia | done] | tauto].
    + split; [| lia]. by destruct hp.
Qed.

End EmptySections.

Lemma both_sections_nil {K : Type} `{Countable K} (header header' : string)
    (row : K -> Z -> line) (m : gmap K Z) :
  range_on_demand header row false (map_to_list m) = []
  /\ range_unused header' row false (map_to_list m) = []
  <-> forall k, map_get m k = 0.
Proof.
  rewrite range_on_demand_nil, range_unused_nil, !Forall_forall. split.
  - intros [Hod Hun] k. unfold map_get.
    destruct (m !! k) as [v|] eqn:Hk; [| done]. simpl.
    apply elem_of_map_to_list in Hk.
    specialize (Hod _ Hk). specialize (Hun _ Hk). simpl in *. lia.
  - intros Hz. split; intros [k v] Hk%elem_of_map_to_list; simpl;
      specialize (Hz k); unfold map_get in Hz; rewrite Hk in Hz; simpl in Hz; lia.
Qed.

(** X6: when the four listings succeed, [main] prints nothing at all, not
    even a header, exactly when every net count of the compute map and of the
    database map is 0. *)
Theorem silent_exactly_when_reconciled (error : Type) (gw : Gateway error)
    (region : string) (runningEi reservedEi : list ec2InstInfo)
    (runningRi reservedRi : list rdsInstInfo) :
  getRunningEC2Instances gw region = inr runningEi ->
  getRunningRDSInstances gw region = inr runningRi ->
  getReservedEC2Instances gw region = inr reservedEi ->
  getReservedRDSInstances gw region = inr reservedRi ->
  main gw region = ([], Return)
  <-> (forall k, map_get (reconcile runningEi reservedEi) k = 0)
      /\ (forall k, map_get (reconcile runningRi reservedRi) k = 0).
Proof.
  intros He Hr Hre Hrr.
  rewrite (main_report gw region _ _ _ _ He Hr Hre Hrr).
  rewrite <- !both_sections_nil. unfold on_demand_ec2, unused_ec2,
    on_demand_rds, unused_rds. split.
  - intros [= Hnil]. apply app_nil in Hnil as [H1 Hnil].
    apply app_nil in Hnil as [H2 Hnil]. apply app_nil in Hnil as [H3 H4].
    repeat split; eassumption.
  - intros [[H1 H2] [H3 H4]]. by rewrite H1, H2, H3, H4.
Qed.

Lemma silent_exactly_when_reconciled_witness :
  getRunningEC2Instances
    (database_only string [scenario_C_running] [scenario_C_reserved]) "us-west-1"
  = inr []
  /\ getRunningRDSInstances
       (database_only string [scenario_C_running] [scenario_C_reserved]) "us-west-1"
     = inr [rdsiTordsii scenario_C_running]
  /\ (main (database_only string [scenario_C_running] [scenario_C_reserved])
           "us-west-1" = ([], Return)
      <-> (forall k : ec2Inst, map_get (reconcile [] []) k = 0)
          /\ (forall k, map_get (reconcile [rdsiTordsii scenario_C_running]
                                           [rdsriTordsii scenario_C_reserved]) k = 0)).
Proof.
  split; [reflexivity |]. split; [reflexivity |].
  exact (silent_exactly_when_reconciled string
           (database_only string [scenario_C_running] [scenario_C_reserved])
           "us-west-1" [] [] [rdsiTordsii scenario_C_running]
           [rdsriTordsii scenario_C_reserved] eq_refl eq_refl eq_refl eq_refl).
Defined.

(** ** Every listed instance counts for one *)

Section UnitCounts.
Context {A K : Type} `{Countable K}.
Variable f : A -> InstInfo K.
Hypothesis count_one : forall a, Count (f a) = 1.
Implicit Types (l : list A) (k : K).

Lemma unit_total k l :
  active_total k (map f l)
  = Z.of_nat (length (filter (fun a => State (f a) = Active /\ inst (f a) = k) l)).
Proof.
  induction l as [|a l IH]; simpl; [done |].
  rewrite filter_cons, IH, count_one. unfold touches.
  destruct (decide (State (f a) = Active /\ inst (f a) = k)) as [Ha|Ha].
  - rewrite bool_decide_eq_true_2 by done. simpl. lia.
  - rewrite bool_decide_eq_false_2 by done. lia.
Qed.

Lemma unit_total_bounds k l :
  0 <= active_total k (map f l) <= Z.of_nat (length l).
Proof.
  rewrite unit_total.
  pose proof (length_filter (fun a => State (f a) = Active /\ inst (f a) = k) l).
  lia.
Qed.

Lemma unit_lookup k l :
  Z.of_nat (length l) <= max_int ->
  reconcile (map f l) [] !! k
  = if touched k (map f l) then Some (active_total k (map f l)) else None.
Proof.
  intros Hlen. rewrite reconcile_lookup. unfold net_lookup, net_of. simpl.
  rewrite orb_false_r, Z.sub_0_r. destruct (touched k (map f l)); [| done].
  rewrite wrap_id; [done |].
  pose proof (unit_total_bounds k l). unfold is_int, min_int. unfold max_int in *.
  lia.
Qed.

Lemma unit_on_demand k l n :
  Z.of_nat (length l) <= max_int ->
  reconcile (map f l) [] !! k = Some n /\ 1 <= n
  <-> n = active_total k (map f l) /\ 1 <= n.
Proof.
  intros Hlen. rewrite unit_lookup by done.
  destruct (touched k (map f l)) eqn:Ht.
  - split; intros [Hn Hpos]; (split; [congruence | done]).
  - rewrite (untouched_total k _ Ht). split; [by intros [? ?] | lia].
Qed.

Lemma unit_nonneg k l v :
  Z.of_nat (length l) <= max_int ->
  reconcile (map f l) [] !! k = Some v -> 0 <= v.
Proof.
  intros Hlen. rewrite unit_lookup by done.
  destruct (touched k (map f l)); [| done]. intros [= <-].
  apply unit_total_bounds.
Qed.

Lemma unit_unused_nil (header : string) (row : K -> Z -> line) l :
  Z.of_nat (length l) <= max_int ->
  range_unused header row false (map_to_list (reconcile (map f l) [])) = [].
Proof.
  intros Hlen. apply range_unused_nil, Forall_forall.
  intros [k v] Hk%elem_of_map_to_list. simpl. by apply (unit_nonneg k l).
Qed.

End UnitCounts.

(** X7: every listed compute instance counts for one.  Whatever the reserved
    records, the net count of a group is the number of listed instances that
    normalize to the group in an Active state, minus the counts of its Active
    reservations (as an [int]).  With no reservation at all and fewer than
    2^63 instances listed, a group is printed among the on-demand instances
    exactly with that number when it is at least 1, and no unused reservation
    is printed. *)
Theorem running_compute_counted (insts : list ec2.Instance.t)
    (S : list ec2InstInfo) (k : ec2Inst) (n : Z) :
  Z.of_nat (length insts) <= max_int ->
  map_get (reconcile (map ec2iToec2ii insts) S) k
  = wrap (Z.of_nat (active_instances_of k insts) - active_total k S)
  /\ (ec2row k n ∈ on_demand_ec2 (reconcile (map ec2iToec2ii insts) [])
      <-> n = Z.of_nat (active_instances_of k insts) /\ 1 <= n)
  /\ unused_ec2 (reconcile (map ec2iToec2ii insts) []) = [].
Proof.
  intros Hlen. unfold active_instances_of.
  rewrite <- (unit_total ec2iToec2ii (fun _ => eq_refl)).
  split; [apply net_equation_reconcile |]. split.
  - rewrite on_demand_ec2_row.
    exact (unit_on_demand ec2iToec2ii (fun _ => eq_refl) k insts n Hlen).
  - exact (unit_unused_nil ec2iToec2ii (fun _ => eq_refl) _ ec2row insts Hlen).
Qed.

Lemma running_compute_counted_witness :
  Z.of_nat (length three_instances) <= max_int
  /\ active_instances_of m3_large three_instances = 2%nat
  /\ (ec2row m3_large 2 ∈ on_demand_ec2 (reconcile (map ec2iToec2ii three_instances) [])
      <-> 2 = Z.of_nat (active_instances_of m3_large three_instances) /\ 1 <= 2)
  /\ unused_ec2 (reconcile (map ec2iToec2ii three_instances) []) = [].
Proof.
  assert (Hlen : Z.of_nat (length three_instances) <= max_int)
    by (vm_compute; discriminate).
  split; [exact Hlen |]. split; [reflexivity |].
  exact (proj2 (running_compute_counted three_instances [] m3_large 2 Hlen)).
Defined.

(** X8: every listed database instance counts for one, whatever its fields:
    [rdsiTordsii] never gives a state other than Active.  Whatever the
    reserved records, the net count of a group is the number of listed
    instances that normalize to the group, minus the counts of its Active
    reservations (as an [int]).  With no reservation at all and fewer than
    2^63 instances listed, a group is printed among the on-demand instances
    exactly with that number when it is at least 1, and no unused reservation
    is printed. *)
Theorem running_database_counted (insts : list rds.DBInstance.t)
    (S : list rdsInstInfo) (k : rdsInst) (n : Z) :
  Z.of_nat (length insts) <= max_int ->
  map_get (reconcile (map rdsiTordsii insts) S) k
  = wrap (Z.of_nat (db_instances_of k insts) - active_total k S)
  /\ (rdsrow k n ∈ on_demand_rds (reconcile (map rdsiTordsii insts) [])
      <-> n = Z.of_nat (db_instances_of k insts) /\ 1 <= n)
  /\ unused_rds (reconcile (map rdsiTordsii insts) []) = [].
Proof.
  intros Hlen. unfold db_instances_of.
  rewrite (list_filter_iff (fun r => inst (rdsiTordsii r) = k)
             (fun r => State (rdsiTordsii r) = Active /\ inst (rdsiTordsii r) = k))
    by (intros r; simpl; tauto).
  rewrite <- (unit_total rdsiTordsii (fun _ => eq_refl)).
  split; [apply net_equation_reconcile |]. split.
  - rewrite on_demand_rds_row.
    exact (unit_on_demand rdsiTordsii (fun _ => eq_refl) k insts n Hlen).
  - exact (unit_unused_nil rdsiTordsii (fun _ => eq_refl) _ rdsrow insts Hlen).
Qed.

Lemma running_database_counted_witness :
  Z.of_nat (length one_db_instance) <= max_int
  /\ db_instances_of db_m3_large_mysql one_db_instance = 1%nat
  /\ (rdsrow db_m3_large_mysql 1
        ∈ on_demand_rds (reconcile (map rdsiTordsii one_db_instance) [])
      <-> 1 = Z.of_nat (db_instances_of db_m3_large_mysql one_db_instance) /\ 1 <= 1)
  /\ unused_rds (reconcile (map rdsiTordsii one_db_instance) []) = [].
Proof.
  assert (Hlen : Z.of_nat (length one_db_instance) <= max_int)
    by (vm_compute; discriminate).
  split; [exact Hlen |]. split; [reflexivity |].
  exact (proj2 (running_database_counted one_db_instance [] db_m3_large_mysql 1 Hlen)).
Defined.

(** ** The order and the grouping of the listed records *)




(** * Package [endpoints] *)

Ltac split_ifs :=
  repeat match goal with
         | |- context [if ?c then _ else _] => destruct c eqn:?
         end.

Ltac eqb_facts :=
  repeat match goal with
         | H : String.eqb _ _ = true |- _ => apply String.eqb_eq in H; subst
         | H : String.eqb _ _ = false |- _ => apply String.eqb_neq in H
         end.

Ltac not_listed :=
  let Hin := fresh "Hin" in
  intros Hin;
  repeat (apply elem_of_cons in Hin as [Hin|Hin];
          [first [discriminate Hin | congruence] |]);
  by apply not_elem_of_nil in Hin.

(** ** Replacement of placeholders *)

Lemma Contains_cons_false (c : Ascii.ascii) (s sub : string) :
  Contains (String c s) sub = false -> Contains s sub = false.
Proof.
  rewrite (Contains_unfold (String c s)). by destruct (String.prefix sub _).
Qed.

Lemma replace_from_absent (c : Ascii.ascii) (old' new a b : string) :
  Contains a (String c "") = false ->
  endpoints.replace_from (String c old') new 0 (a +:+ b)
  = (a +:+ endpoints.replace_from (String c old') new 0 b)%string.
Proof.
  induction a as [|x a IH]; intros Ha; [done |].
  pose proof (Contains_cons_false _ _ _ Ha) as Ha'.
  rewrite Contains_unfold in Ha.
  change (String x a +:+ b)%string with (String x (a +:+ b)).
  cbn [endpoints.replace_from String.prefix].
  destruct (Ascii.ascii_dec c x) as [->|Hne].
  - exfalso. revert Ha. cbn [String.prefix].
    destruct (Ascii.ascii_dec x x); [| done]. by destruct a.
  - cbn [String.append]. by rewrite IH.
Qed.

Lemma replace_from_none (c : Ascii.ascii) (old' new s : string) :
  Contains s (String c "") = false ->
  endpoints.replace_from (String c old') new 0 s = s.
Proof.
  induction s as [|x s IH]; intros Hs; [done |].
  pose proof (Contains_cons_false _ _ _ Hs) as Hs'.
  rewrite Contains_unfold in Hs.
  cbn [endpoints.replace_from String.prefix].
  destruct (Ascii.ascii_dec c x) as [->|Hne].
  - exfalso. revert Hs. cbn [String.prefix].
    destruct (Ascii.ascii_dec x x); [| done]. by destruct s.
  - by rewrite IH.
Qed.

Lemma Replace_keeps_prefix (p t : string) (c : Ascii.ascii) (old' new : string) :
  Contains p (String c "") = false ->
  endpoints.Replace (p +:+ t) (String c old') new
  = (p +:+ endpoints.Replace t (String c old') new)%string.
Proof. intros Hp. unfold endpoints.Replace. by rewrite replace_from_absent. Qed.

Lemma format_https_template (t service region : string) :
  endpoints.format ("https://" +:+ t) service region
  = ("https://" +:+ endpoints.format t service region)%string.
Proof.
  unfold endpoints.format. by rewrite !(Replace_keeps_prefix "https://").
Qed.

Lemma format_scheme_template (t service region : string) :
  endpoints.format ("{scheme}://" +:+ t) service region
  = ("https://" +:+ endpoints.format t service region)%string.
Proof.
  unfold endpoints.format.
  change (endpoints.Replace ("{scheme}://" +:+ t) "{scheme}" "https")
    with ("https://" +:+ endpoints.Replace t "{scheme}" "https")%string.
  by rewrite !(Replace_keeps_prefix "https://").
Qed.

Lemma format_https (uri service region : string) :
  String.prefix "https://" uri || String.prefix "{scheme}://" uri = true ->
  String.prefix "https://" (endpoints.format uri service region) = true.
Proof.
  intros [Hp|Hp]%orb_true_iff; apply prefix_append in Hp as [t ->].
  - rewrite format_https_template. apply prefix_append.
    by exists (endpoints.format t service region).
  - rewrite format_scheme_template. apply prefix_append.
    by exists (endpoints.format t service region).
Qed.

Lemma format_default (service region : string) :
  Contains service "{" = false ->
  endpoints.format "{scheme}://{service}.{region}.amazonaws.com" service region
  = ("https://" +:+ service +:+ "." +:+ region +:+ ".amazonaws.com")%string.
Proof.
  intros Hs. unfold endpoints.format, endpoints.Replace.
  change (endpoints.replace_from "{scheme}" "https" 0
            "{scheme}://{service}.{region}.amazonaws.com")
    with "https://{service}.{region}.amazonaws.com"%string.
  change (endpoints.replace_from "{service}" service 0
            "https://{service}.{region}.amazonaws.com")
    with ("https://" +:+ (service +:+ ".{region}.amazonaws.com"))%string.
  change (endpoints.replace_from "{region}" region 0
            ("https://" +:+ (service +:+ ".{region}.amazonaws.com")))
    with ("https://" +:+ endpoints.replace_from "{region}" region 0
                           (service +:+ ".{region}.amazonaws.com"))%string.
  rewrite replace_from_absent by done.
  reflexivity.
Qed.

Lemma format_default_cn (service region : string) :
  Contains service "{" = false ->
  endpoints.format "{scheme}://{service}.{region}.amazonaws.com.cn" service region
  = ("https://" +:+ service +:+ "." +:+ region +:+ ".amazonaws.com.cn")%string.
Proof.
  intros Hs. unfold endpoints.format, endpoints.Replace.
  change (endpoints.replace_from "{scheme}" "https" 0
            "{scheme}://{service}.{region}.amazonaws.com.cn")
    with "https://{service}.{region}.amazonaws.com.cn"%string.
  change (endpoints.replace_from "{service}" service 0
            "https://{service}.{region}.amazonaws.com.cn")
    with ("https://" +:+ (service +:+ ".{region}.amazonaws.com.cn"))%string.
  change (endpoints.replace_from "{region}" region 0
            ("https://" +:+ (service +:+ ".{region}.amazonaws.com.cn")))
    with ("https://" +:+ endpoints.replace_from "{region}" region 0
                           (service +:+ ".{region}.amazonaws.com.cn"))%string.
  rewrite replace_from_absent by done.
  reflexivity.
Qed.

(** ** The lookup *)

(** X10: [Lookup] panics exactly when the region is empty and the service is
    none of cloudfront, iam, importexport, route53, s3 and sts, and then with
    the message "unknown endpoint for <service> in "; so it always returns
    for a region that is not empty. *)
Theorem lookup_panics (service region msg : string) :
  endpoints.Lookup service region = inl msg <->
    region = ""%string
    /\ (service ∉ ["cloudfront"; "iam"; "importexport"; "route53"; "s3"; "sts"]%string)
    /\ msg = ("unknown endpoint for " +:+ service +:+ " in ")%string.
Proof.
  split.
  - destruct (String.eqb_spec region "") as [->|Hne].
    + unfold endpoints.Lookup. cbn -[endpoints.format String.append].
      split_ifs; intros [= <-]; eqb_facts.
      all: split; [reflexivity |]; split; [not_listed | reflexivity].
    + apply String.eqb_neq in Hne. unfold endpoints.Lookup. cbv zeta.
      rewrite Hne. cbn [negb]. split_ifs; discriminate.
  - intros (-> & Hs & ->). unfold endpoints.Lookup.
    cbn -[endpoints.format String.append].
    split_ifs; eqb_facts; try reflexivity.
    all: exfalso; apply Hs; rewrite !elem_of_cons; tauto.
Qed.

(** X11: whatever [Lookup] returns, the service name it returns is the one
    it was given, and the region it returns is the one it was given or
    "us-east-1". *)
Theorem lookup_overrides (service region uri newService newRegion : string) :
  endpoints.Lookup service region = inr (uri, newService, newRegion) ->
  newService = service /\ (newRegion = region \/ newRegion = "us-east-1"%string).
Proof.
  unfold endpoints.Lookup. cbv zeta.
  split_ifs; intros [= <- <- <-]; eqb_facts; try (split; [reflexivity | tauto]).
Qed.

Lemma lookup_overrides_witness :
  endpoints.Lookup "iam" "eu-west-1"
  = inr ("https://iam.amazonaws.com", "iam", "us-east-1")%string
  /\ ("iam" = "iam" /\ ("us-east-1" = "eu-west-1" \/ "us-east-1" = "us-east-1"))%string.
Proof.
  split; [reflexivity |].
  exact (lookup_overrides "iam" "eu-west-1" "https://iam.amazonaws.com"
           "iam" "us-east-1" eq_refl).
Defined.

(** X12: every URI [Lookup] returns starts with "https://", except the local
    DynamoDB endpoint "http://localhost:8000". *)
Theorem lookup_https (service region uri newService newRegion : string) :
  endpoints.Lookup service region = inr (uri, newService, newRegion) ->
  uri = "http://localhost:8000"%string \/ endpoints.HasPrefix uri "https://" = true.
Proof.
  unfold endpoints.Lookup. cbv zeta.
  split_ifs; intros [= <- <- <-]; eqb_facts.
  all: first [ left; reflexivity
             | right; unfold endpoints.HasPrefix; apply format_https; reflexivity ].
Qed.

Lemma lookup_https_witness :
  endpoints.Lookup "s3" "eu-west-1"
  = inr ("https://s3-eu-west-1.amazonaws.com", "s3", "eu-west-1")%string
  /\ ("https://s3-eu-west-1.amazonaws.com" = "http://localhost:8000"
      \/ endpoints.HasPrefix "https://s3-eu-west-1.amazonaws.com" "https://" = true)%string.
Proof.
  split; [reflexivity |].
  exact (lookup_https "s3" "eu-west-1" "https://s3-eu-west-1.amazonaws.com"
           "s3" "eu-west-1" eq_refl).
Defined.

Lemma not_a_case (service x : string) :
  service ∉ endpoints.cases -> x ∈ endpoints.cases -> String.eqb service x = false.
Proof. intros Hs Hx. apply String.eqb_neq. by intros ->. Qed.

(** X13: for a service without a case of its own in [Lookup], whose name
    holds no opening brace, and a region that is not empty, [Lookup] returns
    the regional endpoint "https://<service>.<region>.amazonaws.com" (with
    ".cn" appended when the region starts with "cn-"), and the service and
    the region as given. *)
Theorem default_endpoint (service region : string) :
  service ∉ endpoints.cases ->
  region <> ""%string ->
  Contains service "{" = false ->
  endpoints.Lookup service region
  = inr (regional_endpoint service region, service, region).
Proof.
  intros Hs Hr Hb. unfold endpoints.Lookup, regional_endpoint. cbv zeta.
  rewrite !(not_a_case service _ Hs)
    by (unfold endpoints.cases; rewrite !elem_of_cons; tauto).
  apply String.eqb_neq in Hr. rewrite Hr. cbn [negb].
  destruct (endpoints.HasPrefix region "cn-").
  - by rewrite format_default_cn.
  - by rewrite format_default.
Qed.

Lemma default_endpoint_witness :
  ("ec2" ∉ endpoints.cases)%string
  /\ "us-west-1"%string <> ""%string
  /\ Contains "ec2" "{" = false
  /\ endpoints.Lookup "ec2" "us-west-1"
     = inr ("https://ec2.us-west-1.amazonaws.com", "ec2", "us-west-1")%string.
Proof.
  assert (Hs : ("ec2" ∉ endpoints.cases)%string) by (unfold endpoints.cases; not_listed).
  assert (Hr : "us-west-1"%string <> ""%string) by discriminate.
  split; [exact Hs |]. split; [exact Hr |]. split; [reflexivity |].
  exact (default_endpoint "ec2" "us-west-1" Hs Hr eq_refl).
Defined.

(** X14: the endpoints of the two services the program calls.  For "ec2",
    [Lookup] panics on the empty region and returns the regional endpoint
    otherwise; for "rds" it returns "https://rds.amazonaws.com" in us-east-1,
    panics on the empty region and returns the regional endpoint otherwise.
    The service and the region come back as given. *)
Theorem program_endpoints (region : string) :
  endpoints.Lookup "ec2" region
  = (if String.eqb region "" then inl "unknown endpoint for ec2 in "%string
     else inr (regional_endpoint "ec2" region, "ec2"%string, region))
  /\ endpoints.Lookup "rds" region
     = (if String.eqb region "us-east-1"
        then inr ("https://rds.amazonaws.com"%string, "rds"%string, region)
        else if String.eqb region "" then inl "unknown endpoint for rds in "%string
        else inr (regional_endpoint "rds" region, "rds"%string, region)).
Proof.
  unfold endpoints.Lookup, regional_endpoint.
  cbn -[endpoints.format endpoints.HasPrefix String.append String.eqb].
  split.
  - destruct (String.eqb_spec region "") as [->|Hne]; [reflexivity |].
    destruct (endpoints.HasPrefix region "cn-"); reflexivity.
  - destruct (String.eqb_spec region "us-east-1") as [->|Hne1]; [reflexivity |].
    destruct (String.eqb_spec region "") as [->|Hne]; [reflexivity |].
    destruct (endpoints.HasPrefix region "cn-"); reflexivity.
Qed.

(** X15: [format] leaves a URI without an opening brace, hence without
    placeholder, as it is, whatever the service and the region. *)
Theorem format_without_placeholder (uri service region : string) :
  Contains uri "{" = false -> endpoints.format uri service region = uri.
Proof.
  intros Hu. unfold endpoints.format, endpoints.Replace.
  by rewrite !(replace_from_none _ _ _ uri Hu).
Qed.

Lemma format_without_placeholder_witness :
  Contains "https://iam.amazonaws.com" "{" = false
  /\ endpoints.format "https://iam.amazonaws.com" "iam" "eu-west-1"
     = "https://iam.amazonaws.com"%string.
Proof.
  split; [reflexivity |].
  exact (format_without_placeholder "https://iam.amazonaws.com" "iam" "eu-west-1"
           eq_refl).
Defined.

(** * Package [model] *)

Section ModelFacts.
Import model.

Lemma str_succeeds (v : value) :
  (exists s, str v = inr s) <-> is_str_or_nil v = true.
Proof. destruct v; simpl; split; try done; eauto; by intros [? ?]. Qed.

Lemma for_each_succeeds {A B : Type} (f : A -> panic + B) (l : list A) :
  (exists bs, for_each f l = inr bs) <-> Forall (fun a => exists b, f a = inr b) l.
Proof.
  induction l as [|a l IH]; simpl.
  - split; [constructor | eauto].
  - rewrite Forall_cons, <- IH. unfold bind. split.
    + intros [bs Hbs]. destruct (f a) as [p|b]; [done |].
      destruct (for_each f l) as [p|bs']; [done |]. eauto.
    + intros [[b ->] [bs ->]]. eauto.
Qed.

Lemma for_each_length {A B : Type} (f : A -> panic + B) (l : list A) (bs : list B) :
  for_each f l = inr bs -> length bs = length l.
Proof.
  revert bs. induction l as [|a l IH]; intros bs; simpl.
  - by intros [= <-].
  - unfold bind. destruct (f a) as [p|b]; [done |].
    destruct (for_each f l) as [p|bs']; [done |]. intros [= <-]. simpl.
    f_equal. by apply IH.
Qed.


Lemma bind_inr {A B : Type} (x : panic + A) (f : A -> panic + B) (b : B) :
  bind x f = inr b <-> exists a, x = inr a /\ f a = inr b.
Proof.
  destruct x as [p|a]; simpl; split; try done.
  - by intros (? & ? & _).
  - eauto.
  - by intros (a' & [= <-] & ?).
Qed.

Lemma for_each_str (l : list value) :
  (exists values, for_each str l = inr values)
  <-> Forall (fun v => is_str_or_nil v = true) l.
Proof.
  rewrite for_each_succeeds. apply Forall_proper; [| done].
  intros v. apply str_succeeds.
Qed.

Lemma for_each_const {A B : Type} (f : A -> panic + B) (l : list A) :
  (forall a, exists b, f a = inr b) -> exists bs, for_each f l = inr bs.
Proof. intros Hf. apply for_each_succeeds, Forall_forall. eauto. Qed.

Lemma oneOf_succeeds (quote : string -> string)
    (v0 v2 : value) (rest : list value) :
  (exists s, Constraint.Condition quote (v0 :: VString "oneOf" :: v2 :: rest) = inr s)
  <-> exists l, v2 = VSlice l /\ Forall (fun v => is_str_or_nil v = true) l
                /\ (l = [] \/ is_str_or_nil v0 = true).
Proof.
  unfold Constraint.Condition, index. simpl. split.
  - intros [s Hs].
    apply bind_inr in Hs as (l & Hl & Hs). destruct v2; try done.
    injection Hl as ->.
    apply bind_inr in Hs as (values & Hvalues & Hs).
    apply bind_inr in Hs as (conds & Hconds & _).
    exists l. split; [done |]. split; [apply for_each_str; eauto |].
    destruct l as [|v l]; [by left | right].
    simpl in Hvalues. apply bind_inr in Hvalues as (x & _ & Hvalues).
    apply bind_inr in Hvalues as (xs & _ & [= <-]).
    simpl in Hconds. apply bind_inr in Hconds as (y & Hy & _).
    apply bind_inr in Hy as (a & Ha & _). apply str_succeeds. eauto.
  - intros (l & -> & Hl & Hv0). simpl.
    apply for_each_str in Hl as [values Hvalues]. rewrite Hvalues. simpl.
    destruct Hv0 as [->|Hv0].
    + simpl in Hvalues. injection Hvalues as <-. simpl. eauto.
    + apply str_succeeds in Hv0 as [a Ha]. rewrite Ha. simpl.
      destruct (for_each_const
                  (fun v => inr (a +:+ " == " +:+ quote v)%string) values)
        as [conds Hconds]; [eauto |].
      rewrite Hconds. simpl. eauto.
Qed.

Lemma binary_succeeds (quote : string -> string) (op : string)
    (v0 v2 : value) (rest : list value) :
  op ∈ ["startsWith"; "notStartsWith"; "equals"; "notEquals"]%string ->
  (exists s, Constraint.Condition quote (v0 :: VString op :: v2 :: rest) = inr s)
  <-> is_str_or_nil v0 = true /\ is_str_or_nil v2 = true.
Proof.
  intros Hop. rewrite !elem_of_cons in Hop.
  destruct Hop as [->|[->|[->|[->|[]%not_elem_of_nil]]]];
    unfold Constraint.Condition, index; simpl;
    destruct v0, v2; simpl; split; try done; eauto; try (by intros [? ?]);
    by intros [? ?].
Qed.

Lemma short_panics (quote : string -> string) (c : list value) (s : string) :
  (length c < 3)%nat -> Constraint.Condition quote c <> inr s.
Proof.
  intros Hlen. destruct c as [|v0 [|o [|v2 rest]]]; simpl in Hlen; try lia;
    unfold Constraint.Condition, index; simpl; try done.
  destruct o as [|op| |]; try done.
  repeat (destruct (String.eqb op _); [by (destruct v0; simpl) |]). discriminate.
Qed.

(** X16: [Condition] returns, rather than panics, exactly on a constraint
    of at least three elements whose second element is the string of an
    operator, and either the operator is startsWith, notStartsWith, equals
    or notEquals and the first and third elements are each nil or a string,
    or the operator is oneOf and the third element is a slice of values that
    are each nil or a string, the first element being nil or a string unless
    that slice is empty.  Elements after the third are ignored. *)
Theorem condition_succeeds (quote : string -> string) (c : list value) :
  (exists s, Constraint.Condition quote c = inr s) <->
  exists v0 op v2 rest,
    c = v0 :: VString op :: v2 :: rest
    /\ ((op ∈ ["startsWith"; "notStartsWith"; "equals"; "notEquals"]%string
         /\ is_str_or_nil v0 = true /\ is_str_or_nil v2 = true)
        \/ (op = "oneOf"%string
            /\ exists l, v2 = VSlice l
                         /\ Forall (fun v => is_str_or_nil v = true) l
                         /\ (l = [] \/ is_str_or_nil v0 = true))).
Proof.
  split.
  - intros [s Hs].
    destruct c as [|v0 [|o [|v2 rest]]];
      try (by exfalso; eapply (short_panics quote); [| exact Hs]; simpl; lia).
    destruct o as [|op| |]; try done.
    exists v0, op, v2, rest. split; [done |].
    destruct (decide (op ∈ ["startsWith"; "notStartsWith"; "equals"; "notEquals"]%string))
      as [Hop|Hop].
    + left. split; [done |]. apply (binary_succeeds quote op v0 v2 rest Hop). eauto.
    + right. rewrite !elem_of_cons in Hop.
      destruct (String.eqb_spec op "oneOf") as [->|Hne].
      * split; [done |]. apply (oneOf_succeeds quote v0 v2 rest). eauto.
      * exfalso. revert Hs. unfold Constraint.Condition, index. simpl.
        repeat match goal with
               | |- context [String.eqb op ?x] =>
                   destruct (String.eqb_spec op x); [tauto |]
               end.
        discriminate.
  - intros (v0 & op & v2 & rest & -> & [(Hop & H0 & H2)|(-> & Hl)]).
    + by apply binary_succeeds.
    + by apply oneOf_succeeds.
Qed.

Lemma for_each_inr {A B : Type} (f : A -> panic + B) (l : list A) (bs : list B) :
  for_each f l = inr bs <-> Forall2 (fun a b => f a = inr b) l bs.
Proof.
  revert bs. induction l as [|a l IH]; intros bs; simpl.
  - split; [intros [= <-]; constructor | by intros ->%Forall2_nil_inv_l].
  - rewrite bind_inr. split.
    + intros (b & Hb & Hbs). apply bind_inr in Hbs as (bs' & Hbs' & [= <-]).
      constructor; [done |]. by apply IH.
    + intros (b & bs' & Hb & Hbs' & ->)%Forall2_cons_inv_l.
      exists b. split; [done |]. apply bind_inr. exists bs'.
      split; [by apply IH | done].
Qed.

Lemma for_each_cons_inl {A B : Type} (f : A -> panic + B) (a : A) (l : list A)
    (p : panic) :
  for_each f (a :: l) = inl p <->
    f a = inl p \/ exists b, f a = inr b /\ for_each f l = inl p.
Proof.
  simpl. destruct (f a) as [q|b]; simpl.
  - split; [intros [= ->]; by left | intros [[= ->]|(? & ? & _)]; done].
  - destruct (for_each f l) as [q|bs]; simpl.
    + split; [intros [= ->]; right; eauto | intros [?|(? & _ & [= ->])]; done].
    + split; [done | intros [?|(? & _ & ?)]; done].
Qed.

Lemma for_each_inl {A B : Type} (f : A -> panic + B) (l : list A) (p : panic) :
  for_each f l = inl p <->
    exists i a, l !! i = Some a /\ f a = inl p
                /\ forall j a', (j < i)%nat -> l !! j = Some a' -> exists b, f a' = inr b.
Proof.
  induction l as [|a l IH].
  - simpl. split; [done | by intros (i & a & ? & _)].
  - rewrite for_each_cons_inl. split.
    + intros [Ha|(b & Hb & (i & a' & Hi & Ha' & Hbefore)%IH)].
      * exists 0%nat, a. split; [done |]. split; [done |]. lia.
      * exists (S i), a'. split; [done |]. split; [done |].
        intros [|j] a'' Hj Hj'; simpl in Hj'.
        -- injection Hj' as <-. eauto.
        -- apply (Hbefore j); [lia | done].
    + intros (i & a' & Hi & Ha' & Hbefore). destruct i as [|i].
      * simpl in Hi. injection Hi as <-. by left.
      * right. destruct (Hbefore 0%nat a) as [b Hb]; [lia | done |].
        exists b. split; [done |]. apply IH.
        exists i, a'. split; [done |]. split; [done |].
        intros j a'' Hj Hj'. apply (Hbefore (S j)); [lia | done].
Qed.


Lemma bind_inl {A B : Type} (x : panic + A) (f : A -> panic + B) (p : panic) :
  bind x f = inl p <-> x = inl p \/ exists a, x = inr a /\ f a = inl p.
Proof.
  destruct x as [q|a]; simpl; split.
  - intros [= ->]. by left.
  - intros [[= ->]|(? & ? & _)]; done.
  - eauto.
  - intros [?|(a' & [= <-] & ?)]; done.
Qed.

Lemma for_each_then {A B C : Type} (f : A -> panic + B) (h : B -> C) (l : list A) :
  for_each (fun a => bind (f a) (fun b => inr (h b))) l
  = bind (for_each f l) (fun bs => inr (map h bs)).
Proof.
  induction l as [|a l IH]; simpl; [done |].
  rewrite IH. destruct (f a) as [p|b]; simpl; [done |].
  by destruct (for_each f l).
Qed.

(** X19: [Conditions] returns exactly when [Condition] returns for every
    constraint of the endpoint, and then gives the conditions in order, each
    between parentheses, joined by " && " (the empty string for an endpoint
    without constraint); it panics exactly with the panic of the first
    constraint, in order, on which [Condition] panics. *)
Theorem conditions_result (quote : string -> string) (e : Endpoint.t) :
  (forall s, Endpoint.Conditions quote e = inr s <->
     exists ss, Forall2 (fun c s' => Constraint.Condition quote c = inr s')
                        (Endpoint.Constraints e) ss
                /\ s = Join (map (fun s' => "(" +:+ s' +:+ ")")%string ss) " && ")
  /\ (forall p, Endpoint.Conditions quote e = inl p <->
        exists i c, Endpoint.Constraints e !! i = Some c
                    /\ Constraint.Condition quote c = inl p
                    /\ forall j c', (j < i)%nat ->
                         Endpoint.Constraints e !! j = Some c' ->
                         exists s, Constraint.Condition quote c' = inr s).
Proof.
  unfold Endpoint.Conditions.
  rewrite (for_each_then (Constraint.Condition quote)
             (fun s' => "(" +:+ s' +:+ ")")%string).
  split.
  - intros s. rewrite bind_inr. split.
    + intros (conds & Hconds & [= <-]).
      apply bind_inr in Hconds as (ss & Hss & [= <-]).
      exists ss. split; [by apply for_each_inr | done].
    + intros (ss & Hss & ->). apply for_each_inr in Hss. rewrite Hss. simpl. eauto.
  - intros p. rewrite <- for_each_inl. rewrite !bind_inl. split.
    + intros [[?|(? & _ & [=])]|(? & _ & [=])]. done.
    + intros ->. by left; left.
Qed.


Ltac no_unknown H :=
  repeat (apply bind_inl in H as [H|(? & _ & H)]);
  try discriminate H;
  try (unfold index in H; destruct (_ !! _); discriminate H);
  try match type of H with str ?v = _ => destruct v; discriminate H end;
  try match type of H with as_slice ?v = _ => destruct v; discriminate H end.

(** X17: [Condition] panics with "unknown operator" exactly when the
    constraint has a second element that is not the string of one of the
    five operators, and the panic reports that element. *)
Theorem unknown_operator (quote : string -> string) (c : list value) (v : value) :
  Constraint.Condition quote c = inl (UnknownOperator v) <->
    c !! 1%nat = Some v /\ forall op, op ∈ operators -> v <> VString op.
Proof.
  unfold Constraint.Condition. split.
  - intros H. apply bind_inl in H as [H|(o & Ho & H)].
    { unfold index in H. destruct (c !! 1%nat); discriminate H. }
    unfold index in Ho. destruct (c !! 1%nat) as [o'|]; [| discriminate Ho].
    injection Ho as ->.
    destruct o as [|op| |]; try (injection H as <-; split; [done | by intros ? _]).
    revert H.
    repeat match goal with
           | |- context [String.eqb op ?x] =>
               destruct (String.eqb_spec op x) as [->|?]
           end; intros H.
    + exfalso. no_unknown H.
    + exfalso. no_unknown H.
    + exfalso. no_unknown H.
    + exfalso. no_unknown H.
    + exfalso. no_unknown H.
      * apply for_each_inl in H as (i & a & _ & Ha & _). destruct a; discriminate Ha.
      * apply for_each_inl in H as (i & a & _ & Ha & _). no_unknown Ha.
    + injection H as <-. split; [done |]. intros op' Hop' [= <-].
      unfold operators in Hop'. rewrite !elem_of_cons in Hop'.
      destruct Hop' as [?|[?|[?|[?|[?|[]%not_elem_of_nil]]]]]; done.
  - intros [Hc Hv]. unfold index. rewrite Hc. simpl.
    destruct v as [|op| |]; try done.
    repeat match goal with
           | |- context [String.eqb op ?x] =>
               destruct (String.eqb_spec op x) as [->|?];
               [exfalso; apply (Hv x); [unfold operators; rewrite !elem_of_cons; tauto | done] |]
           end.
    done.
Qed.

End ModelFacts.
